(** * Xapian scoring core: statistics negotiation, BM25 construction and
      the synonym posting-list combinator.

    Shallow embedding of [include/xapian/weight.h] (class [Xapian::Weight],
    [BM25Weight], [BM25PlusWeight]) and of [matcher/synonympostlist.cc]. *)

From Stdlib Require Import ZArith List Bool Lia.
From Stdlib Require Import Floats.SpecFloat.
From Stdlib Require Import Ascii String QArith.
Import ListNotations.

Local Open Scope Z_scope.

(** ** C++ scalar types *)

(** [double]: IEEE 754 binary64, as the specification-level floats of the
    standard library.  Only comparisons against constants are needed. *)
Definition double : Type := spec_float.

(** The literal [0] (or [0.0]) converted to [double]. *)
Definition d0 : double := S754_zero false.
(** The literal [1] converted to [double]: 2^52 * 2^-52. *)
Definition d1 : double := S754_finite false 4503599627370496 (-52).

(** C++ comparison operators on [double]; every comparison with a NaN
    operand is false, except [!=] which is true. *)
Definition dlt (x y : double) : bool := SFltb x y.
Definition dgt (x y : double) : bool := SFltb y x.
Definition dge (x y : double) : bool := SFleb y x.
Definition dle (x y : double) : bool := SFleb x y.
Definition dne (x y : double) : bool := negb (SFeqb x y).

(** -1.0 and 2.0 as [double]s. *)
Definition d_minus1 : double := S754_finite true 4503599627370496 (-52).
Definition d2 : double := S754_finite false 4503599627370496 (-51).

(** [x * y] on [double]: binary64 multiplication, round to nearest even. *)
Definition dmul (x y : double) : double := SFmul 53 1024 x y.
(** [x == y] on [double]. *)
Definition deq (x y : double) : bool := SFeqb x y.

Definition is_nan (x : double) : bool :=
  match x with S754_nan => true | _ => false end.

(** [Xapian::termcount], [Xapian::docid]: unsigned integers.  The embedded
    code only compares and copies them. *)
Definition termcount : Type := N.
Definition docid : Type := N.

(** ** Statistics negotiation ([Xapian::Weight]) *)

Module Weight.

(** The enumerators of [stat_flags], by name. *)
Inductive stat_flags : Type :=
| COLLECTION_SIZE | RSET_SIZE | AVERAGE_LENGTH | TERMFREQ | RELTERMFREQ
| QUERY_LENGTH | WQF | WDF | DOC_LENGTH | DOC_LENGTH_MIN | DOC_LENGTH_MAX
| WDF_MAX | COLLECTION_FREQ | UNIQUE_TERMS | TOTAL_LENGTH | WDF_DOC_MAX
| UNIQUE_TERMS_MIN | UNIQUE_TERMS_MAX | DB_DOC_LENGTH_MIN | DB_DOC_LENGTH_MAX
| DB_UNIQUE_TERMS_MIN | DB_UNIQUE_TERMS_MAX | DB_WDF_MAX | IS_BOOLWEIGHT_.

Definition all_flags : list stat_flags :=
  [ COLLECTION_SIZE; RSET_SIZE; AVERAGE_LENGTH; TERMFREQ; RELTERMFREQ;
    QUERY_LENGTH; WQF; WDF; DOC_LENGTH; DOC_LENGTH_MIN; DOC_LENGTH_MAX;
    WDF_MAX; COLLECTION_FREQ; UNIQUE_TERMS; TOTAL_LENGTH; WDF_DOC_MAX;
    UNIQUE_TERMS_MIN; UNIQUE_TERMS_MAX; DB_DOC_LENGTH_MIN; DB_DOC_LENGTH_MAX;
    DB_UNIQUE_TERMS_MIN; DB_UNIQUE_TERMS_MAX; DB_WDF_MAX; IS_BOOLWEIGHT_ ].

(** The numeric value of each enumerator.  The underlying type is [int];
    [IS_BOOLWEIGHT_] is [static_cast<int>(0x80000000)], the sign bit. *)
Definition flag_value (f : stat_flags) : Z :=
  match f with
  | COLLECTION_SIZE => 0
  | RSET_SIZE => 0
  | AVERAGE_LENGTH => 4
  | TERMFREQ => 1
  | RELTERMFREQ => 1
  | QUERY_LENGTH => 0
  | WQF => 0
  | WDF => 2
  | DOC_LENGTH => 8
  | DOC_LENGTH_MIN => 16
  | DOC_LENGTH_MAX => 32
  | WDF_MAX => 64
  | COLLECTION_FREQ => 1
  | UNIQUE_TERMS => 128
  | TOTAL_LENGTH => 256
  | WDF_DOC_MAX => 512
  | UNIQUE_TERMS_MIN => 1024
  | UNIQUE_TERMS_MAX => 2048
  | DB_DOC_LENGTH_MIN => 4096
  | DB_DOC_LENGTH_MAX => 8192
  | DB_UNIQUE_TERMS_MIN => 16384
  | DB_UNIQUE_TERMS_MAX => 32768
  | DB_WDF_MAX => 65536
  | IS_BOOLWEIGHT_ => -2147483648
  end.

Definition stat_flags_eq_dec (f g : stat_flags) : {f = g} + {f <> g}.
Proof. decide equality. Defined.

(** [stats_needed]: the bitmask member, a 32-bit two's-complement [int]. *)
Definition int_range (s : Z) : Prop := -2147483648 <= s < 2147483648.

(** [Weight() : stats_needed() { }]: value-initialised, i.e. zero. *)
Definition stats_needed_init : Z := 0.

(** [void need_stat(stat_flags flag)]:
    [stats_needed = stat_flags(stats_needed | flag);] *)
Definition need_stat (flag : stat_flags) (stats_needed : Z) : Z :=
  Z.lor stats_needed (flag_value flag).

(** A sequence of [need_stat] calls, first call first. *)
Definition need_stats (flags : list stat_flags) (stats_needed : Z) : Z :=
  fold_left (fun s f => need_stat f s) flags stats_needed.

(** The test every accessor performs: [stats_needed & FLAG] converted to
    [bool], i.e. compared with zero. *)
Definition needs (stats_needed : Z) (flag : stat_flags) : bool :=
  negb (Z.land stats_needed (flag_value flag) =? 0).

(** [bool get_sumpart_needs_doclength_() const] *)
Definition get_sumpart_needs_doclength_ (stats_needed : Z) : bool :=
  needs stats_needed DOC_LENGTH.
(** [bool get_sumpart_needs_wdf_() const] *)
Definition get_sumpart_needs_wdf_ (stats_needed : Z) : bool :=
  needs stats_needed WDF.
(** [bool get_sumpart_needs_uniqueterms_() const] *)
Definition get_sumpart_needs_uniqueterms_ (stats_needed : Z) : bool :=
  needs stats_needed UNIQUE_TERMS.
(** [bool is_bool_weight_() const] *)
Definition is_bool_weight_ (stats_needed : Z) : bool :=
  needs stats_needed IS_BOOLWEIGHT_.
(** [bool get_sumpart_needs_wdfdocmax_() const] *)
Definition get_sumpart_needs_wdfdocmax_ (stats_needed : Z) : bool :=
  needs stats_needed WDF_DOC_MAX.

(** The declared set seen as a set of bit positions. *)
Definition bit_declared (stats_needed : Z) (i : Z) : bool :=
  Z.testbit stats_needed i.

(** A weighting-scheme object as far as the matcher sees it: the declared
    bitmask and the virtual scoring methods. *)
Record t : Type := mk {
  stats_needed : Z;
  get_sumpart : termcount -> termcount -> termcount -> termcount -> double;
  get_maxpart : double;
  get_sumextra : termcount -> termcount -> termcount -> double;
  get_maxextra : double
}.

End Weight.

(** ** BM25 ([Xapian::BM25Weight]) *)

Module BM25.

Import Weight.

(** The data members set by the constructors.  [len_factor] and
    [termweight] are only assigned by [init()] and are left out. *)
Record t : Type := mk {
  param_k1 : double;
  param_k2 : double;
  param_k3 : double;
  param_b : double;
  param_min_normlen : double;
  stats_needed : Z
}.

(** The [need_stat] calls made by the body of the five-argument
    constructor, in program order, given the members after clamping. *)
Definition need_stat_calls (param_k1 param_k2 param_k3 param_b : double)
  : list stat_flags :=
  [COLLECTION_SIZE; RSET_SIZE; TERMFREQ; RELTERMFREQ; WDF; WDF_MAX]
  ++ (if dne param_k2 d0 || (dne param_k1 d0 && dne param_b d0)
      then [DOC_LENGTH_MIN; AVERAGE_LENGTH] else [])
  ++ (if dne param_k1 d0 && dne param_b d0 then [DOC_LENGTH] else [])
  ++ (if dne param_k2 d0 then [DOC_LENGTH; QUERY_LENGTH] else [])
  ++ (if dne param_k3 d0 then [WQF] else []).

(** [BM25Weight(double k1, double k2, double k3, double b,
                double min_normlen)] *)
Definition BM25Weight (k1 k2 k3 b min_normlen : double) : t :=
  let param_k1 := k1 in
  let param_k2 := k2 in
  let param_k3 := k3 in
  let param_b := b in
  let param_k1 := if dlt param_k1 d0 then d0 else param_k1 in
  let param_k2 := if dlt param_k2 d0 then d0 else param_k2 in
  let param_k3 := if dlt param_k3 d0 then d0 else param_k3 in
  let param_b :=
    if dlt param_b d0 then d0
    else if dgt param_b d1 then d1
    else param_b in
  mk param_k1 param_k2 param_k3 param_b min_normlen
     (need_stats (need_stat_calls param_k1 param_k2 param_k3 param_b)
                 stats_needed_init).

(** The calls made on behalf of given constructor arguments. *)
Definition ctor_calls (k1 k2 k3 b min_normlen : double) : list stat_flags :=
  let w := BM25Weight k1 k2 k3 b min_normlen in
  need_stat_calls (param_k1 w) (param_k2 w) (param_k3 w) (param_b w).

(** 0.5 as a [double]: 2^52 * 2^-53. *)
Definition d_half : double := S754_finite false 4503599627370496 (-53).

(** [BM25Weight()]: the default constructor. *)
Definition BM25Weight_default : t :=
  mk d1 d0 d1 d_half d_half
     (need_stats
        [COLLECTION_SIZE; RSET_SIZE; TERMFREQ; RELTERMFREQ; WDF; WDF_MAX;
         DOC_LENGTH_MIN; AVERAGE_LENGTH; DOC_LENGTH; WQF]
        stats_needed_init).

(** [TradWeight(double k = 1.0) : BM25Weight(k, 0.0, 0.0, 1.0, 0.0)] *)
Definition TradWeight (k : double) : t := BM25Weight k d0 d0 d1 d0.

End BM25.

(** ** BM25+ ([Xapian::BM25PlusWeight]) *)

Module BM25Plus.

Import Weight.

Record t : Type := mk {
  param_k1 : double;
  param_k2 : double;
  param_k3 : double;
  param_b : double;
  param_min_normlen : double;
  param_delta : double;
  stats_needed : Z
}.

(** The [need_stat] calls of the six-argument constructor body. *)
Definition need_stat_calls (param_k1 param_k2 param_k3 param_b : double)
  : list stat_flags :=
  [COLLECTION_SIZE; RSET_SIZE; TERMFREQ; RELTERMFREQ; WDF; WDF_MAX]
  ++ (if dne param_k2 d0 || (dne param_k1 d0 && dne param_b d0)
      then [DOC_LENGTH_MIN; AVERAGE_LENGTH] else [])
  ++ (if dne param_k1 d0 && dne param_b d0 then [DOC_LENGTH] else [])
  ++ (if dne param_k2 d0 then [DOC_LENGTH; QUERY_LENGTH] else [])
  ++ (if dne param_k3 d0 then [WQF] else []).

(** [BM25PlusWeight(double k1, double k2, double k3, double b,
                    double min_normlen, double delta)] *)
Definition BM25PlusWeight (k1 k2 k3 b min_normlen delta : double) : t :=
  let param_k1 := k1 in
  let param_k2 := k2 in
  let param_k3 := k3 in
  let param_b := b in
  let param_delta := delta in
  let param_k1 := if dlt param_k1 d0 then d0 else param_k1 in
  let param_k2 := if dlt param_k2 d0 then d0 else param_k2 in
  let param_k3 := if dlt param_k3 d0 then d0 else param_k3 in
  let param_delta := if dlt param_delta d0 then d0 else param_delta in
  let param_b :=
    if dlt param_b d0 then d0
    else if dgt param_b d1 then d1
    else param_b in
  mk param_k1 param_k2 param_k3 param_b min_normlen param_delta
     (need_stats (need_stat_calls param_k1 param_k2 param_k3 param_b)
                 stats_needed_init).

Definition ctor_calls (k1 k2 k3 b min_normlen delta : double)
  : list stat_flags :=
  let w := BM25PlusWeight k1 k2 k3 b min_normlen delta in
  need_stat_calls (param_k1 w) (param_k2 w) (param_k3 w) (param_b w).

(** [BM25PlusWeight()]: the default constructor. *)
Definition BM25PlusWeight_default : t :=
  mk d1 d0 d1 BM25.d_half BM25.d_half d1
     (need_stats
        [COLLECTION_SIZE; RSET_SIZE; TERMFREQ; RELTERMFREQ; WDF; WDF_MAX;
         DOC_LENGTH_MIN; AVERAGE_LENGTH; DOC_LENGTH; WQF]
        stats_needed_init).

End BM25Plus.

(** ** Posting lists *)

Module PostList.

(** The virtual methods of the abstract class [PostList] which the synonym
    combinator invokes on the sub-postlist it wraps.  [P] is the state of
    the sub-postlist, [R] the value a [PostList*]-returning method hands
    back.  State-changing methods return the new state. *)
Class Ops (P R : Type) : Type := {
  next : double -> P -> R * P;
  skip_to : docid -> double -> P -> R * P;
  get_wdf : P -> termcount;
  get_docid : P -> docid;
  count_matching_subqs : P -> termcount
}.

End PostList.

(** [PostListTree]: only [get_doclength(did)] is used. *)
Record PostListTree : Type := {
  get_doclength : docid -> termcount
}.

(** ** The synonym combinator ([SynonymPostList]) *)

Module Synonym.

Section WithSubPostList.

Context {P R : Type} {ops : PostList.Ops P R}.

(** Modelled from the spec: the class declaration (synonympostlist.h) is not
    part of the sources.  The members are those the member functions of
    synonympostlist.cc read and write: [pl] (inherited from
    [WrapperPostList]), the owned [wt] (null until [set_weight]), the flags
    [want_wdf] and [want_wdfdocmax] derived by [set_weight], the flag
    [needs_doclen] read by [get_weight] (never assigned in
    synonympostlist.cc) and [pltree]. *)
Record SynonymPostList : Type := mk {
  pl : P;
  wt : option Weight.t;
  want_wdf : bool;
  want_wdfdocmax : bool;
  needs_doclen : bool;
  pltree : PostListTree
}.

(** Modelled from the spec: [WrapperPostList::next], [::skip_to] and
    [::get_wdf] (wrapperpostlist.cc is not part of the sources) forward the
    call, with the threshold they are given, to the wrapped sub-postlist
    [pl]. *)
Definition WrapperPostList_next (w_min : double) (s : SynonymPostList)
  : R * SynonymPostList :=
  let (r, pl') := PostList.next w_min (pl s) in
  (r, mk pl' (wt s) (want_wdf s) (want_wdfdocmax s) (needs_doclen s)
         (pltree s)).

Definition WrapperPostList_skip_to (did : docid) (w_min : double)
  (s : SynonymPostList) : R * SynonymPostList :=
  let (r, pl') := PostList.skip_to did w_min (pl s) in
  (r, mk pl' (wt s) (want_wdf s) (want_wdfdocmax s) (needs_doclen s)
         (pltree s)).

Definition WrapperPostList_get_wdf (s : SynonymPostList) : termcount :=
  PostList.get_wdf (pl s).

(** [void SynonymPostList::set_weight(const Xapian::Weight* wt_)] *)
Definition set_weight (wt_ : Weight.t) (s : SynonymPostList)
  : SynonymPostList :=
  mk (pl s) (Some wt_)
     (Weight.get_sumpart_needs_wdf_ (Weight.stats_needed wt_))
     (Weight.get_sumpart_needs_wdfdocmax_ (Weight.stats_needed wt_))
     (needs_doclen s) (pltree s).

(** [PostList* SynonymPostList::next(double w_min)] *)
Definition next (w_min : double) (s : SynonymPostList)
  : R * SynonymPostList :=
  WrapperPostList_next d0 s.

(** [PostList* SynonymPostList::skip_to(Xapian::docid did, double w_min)] *)
Definition skip_to (did : docid) (w_min : double) (s : SynonymPostList)
  : R * SynonymPostList :=
  WrapperPostList_skip_to did d0 s.

(** The argument tuple [(wdf, doclen, unique_terms, wdfdocmax)] which
    [SynonymPostList::get_weight] hands to [wt->get_sumpart]. *)
Definition get_weight_args (s : SynonymPostList)
  (doclen unique_terms wdfdocmax : termcount)
  : termcount * termcount * termcount * termcount :=
  let wdf := 0%N in
  let wdf :=
    if want_wdf s then
      let wdf := WrapperPostList_get_wdf s in
      if needs_doclen s then
        if (doclen <? wdf)%N then doclen else wdf
      else wdf
    else wdf in
  let '(doclen, wdfdocmax) :=
    if want_wdfdocmax s then
      let doclen :=
        if (doclen =? 0)%N
        then get_doclength (pltree s) (PostList.get_docid (pl s))
        else doclen in
      (doclen, doclen)
    else (doclen, wdfdocmax) in
  (wdf, doclen, unique_terms, wdfdocmax).

(** [double SynonymPostList::get_weight(doclen, unique_terms, wdfdocmax)
    const]; [None] when no weight object has been set ([wt] is null). *)
Definition get_weight (s : SynonymPostList)
  (doclen unique_terms wdfdocmax : termcount) : option double :=
  match wt s with
  | Some w =>
      let '(wdf, doclen, unique_terms, wdfdocmax) :=
        get_weight_args s doclen unique_terms wdfdocmax in
      Some (Weight.get_sumpart w wdf doclen unique_terms wdfdocmax)
  | None => None
  end.

(** [double SynonymPostList::recalc_maxweight()] *)
Definition recalc_maxweight (s : SynonymPostList) : option double :=
  match wt s with
  | Some w => Some (Weight.get_maxpart w)
  | None => None
  end.

(** [Xapian::termcount SynonymPostList::count_matching_subqs() const] *)
Definition count_matching_subqs (s : SynonymPostList) : termcount := 1%N.

(** The within-document frequency handed to [get_sumpart]. *)
Definition passed_wdf (s : SynonymPostList)
  (doclen unique_terms wdfdocmax : termcount) : termcount :=
  let '(wdf, _, _, _) := get_weight_args s doclen unique_terms wdfdocmax in
  wdf.

(** The document length handed to [get_sumpart]. *)
Definition passed_doclen (s : SynonymPostList)
  (doclen unique_terms wdfdocmax : termcount) : termcount :=
  let '(_, doclen', _, _) := get_weight_args s doclen unique_terms wdfdocmax in
  doclen'.

(** A combinator [s] owns weight [w]: [w] is its weight object and the two
    flags [set_weight] derives are those of [w].  Nothing is said about
    [needs_doclen], which [set_weight] does not assign. *)
Definition owns (s : SynonymPostList) (w : Weight.t) : Prop :=
  wt s = Some w
  /\ want_wdf s = Weight.get_sumpart_needs_wdf_ (Weight.stats_needed w)
  /\ want_wdfdocmax s
     = Weight.get_sumpart_needs_wdfdocmax_ (Weight.stats_needed w).

(** The outcome [out] of a call on the combinator [s] is the outcome
    [child_step] of a call on its sub-postlist: same returned value, the
    sub-postlist in the state the call left it in, nothing else changed. *)
Definition same_as_child_step (child_step : R * P) (s : SynonymPostList)
  (out : R * SynonymPostList) : Prop :=
  fst out = fst child_step
  /\ pl (snd out) = snd child_step
  /\ wt (snd out) = wt s
  /\ want_wdf (snd out) = want_wdf s
  /\ want_wdfdocmax (snd out) = want_wdfdocmax s
  /\ needs_doclen (snd out) = needs_doclen s
  /\ pltree (snd out) = pltree s.

End WithSubPostList.

Arguments SynonymPostList P : clear implicits.

End Synonym.

(** ** A concrete sub-postlist: an OR-tree of terms *)

Module OrTree.

(** Modelled from the spec: the posting lists a synonym group wraps are not
    part of the sources.  A term leaf carries the current document, the wdf
    there and an upper bound on its weight; a plain OR-combination sums the
    matching-subquery counts and the wdfs of its children.  Advancing a leaf
    moves to the next document when the bound reaches the threshold and to
    the end (document 0) otherwise. *)
Inductive t : Type :=
| Term (did : docid) (wdf : termcount) (maxweight : double)
| Or (l r : t).

Fixpoint count_matching_subqs (p : t) : termcount :=
  match p with
  | Term _ _ _ => 1%N
  | Or l r => (count_matching_subqs l + count_matching_subqs r)%N
  end.

Fixpoint get_wdf (p : t) : termcount :=
  match p with
  | Term _ wdf _ => wdf
  | Or l r => (get_wdf l + get_wdf r)%N
  end.

Fixpoint get_docid (p : t) : docid :=
  match p with
  | Term did _ _ => did
  | Or l r => N.min (get_docid l) (get_docid r)
  end.

Fixpoint advance (w_min : double) (p : t) : t :=
  match p with
  | Term did wdf mw =>
      if dlt mw w_min then Term 0%N wdf mw else Term (did + 1)%N wdf mw
  | Or l r => Or (advance w_min l) (advance w_min r)
  end.

Fixpoint seek (target : docid) (w_min : double) (p : t) : t :=
  match p with
  | Term did wdf mw =>
      if dlt mw w_min then Term 0%N wdf mw else Term (N.max did target) wdf mw
  | Or l r => Or (seek target w_min l) (seek target w_min r)
  end.

#[global] Instance ops : PostList.Ops t unit := {|
  PostList.next := fun w p => (tt, advance w p);
  PostList.skip_to := fun did w p => (tt, seek did w p);
  PostList.get_wdf := get_wdf;
  PostList.get_docid := get_docid;
  PostList.count_matching_subqs := count_matching_subqs
|}.

(** The OR of [n + 1] copies of a term. *)
Fixpoint or_of (n : nat) (leaf : t) : t :=
  match n with
  | O => leaf
  | S n' => Or leaf (or_of n' leaf)
  end.

End OrTree.

(** ** Constructors of the built-in schemes ([weight.h]) *)

Module Schemes.

Import Weight.

(** The weighting classes one of whose constructors has its [need_stat]
    calls in [weight.h].  The [TfIdfWeight] constructors that take
    normalizations delegate to constructors defined outside [weight.h] and
    are not covered. *)
Inductive scheme : Type :=
| BoolWeight | TfIdfWeight | BM25Weight | BM25PlusWeight | InL2Weight
| IfB2Weight | IneB2Weight | BB2Weight | DLHWeight | PL2Weight
| PL2PlusWeight | DPHWeight | LMJMWeight | LMDirichletWeight
| LMAbsDiscountWeight | LM2StageWeight | CoordWeight | DiceCoeffWeight.

Definition all_schemes : list scheme :=
  [ BoolWeight; TfIdfWeight; BM25Weight; BM25PlusWeight; InL2Weight;
    IfB2Weight; IneB2Weight; BB2Weight; DLHWeight; PL2Weight;
    PL2PlusWeight; DPHWeight; LMJMWeight; LMDirichletWeight;
    LMAbsDiscountWeight; LM2StageWeight; CoordWeight; DiceCoeffWeight ].

(** The [need_stat] calls in the body of one constructor of each class,
    in program order: the default constructor, or for the language-model
    classes the constructor with defaulted arguments (whose calls do not
    depend on the arguments). *)
Definition ctor_calls (s : scheme) : list stat_flags :=
  match s with
  | BoolWeight => [IS_BOOLWEIGHT_]
  | TfIdfWeight => [WQF; TERMFREQ; WDF; WDF_MAX; COLLECTION_SIZE]
  | BM25Weight | BM25PlusWeight =>
      [COLLECTION_SIZE; RSET_SIZE; TERMFREQ; RELTERMFREQ; WDF; WDF_MAX;
       DOC_LENGTH_MIN; AVERAGE_LENGTH; DOC_LENGTH; WQF]
  | InL2Weight =>
      [AVERAGE_LENGTH; DOC_LENGTH; DOC_LENGTH_MIN; DOC_LENGTH_MAX;
       COLLECTION_SIZE; WDF; WDF_MAX; WQF; TERMFREQ]
  | IfB2Weight =>
      [AVERAGE_LENGTH; DOC_LENGTH; DOC_LENGTH_MIN; DOC_LENGTH_MAX;
       COLLECTION_SIZE; COLLECTION_FREQ; WDF; WDF_MAX; WQF; TERMFREQ]
  | IneB2Weight =>
      [AVERAGE_LENGTH; DOC_LENGTH; DOC_LENGTH_MIN; DOC_LENGTH_MAX;
       COLLECTION_SIZE; WDF; WDF_MAX; WQF; COLLECTION_FREQ; TERMFREQ]
  | BB2Weight =>
      [AVERAGE_LENGTH; DOC_LENGTH; DOC_LENGTH_MIN; DOC_LENGTH_MAX;
       COLLECTION_SIZE; COLLECTION_FREQ; WDF; WDF_MAX; WQF; TERMFREQ]
  | DLHWeight =>
      [DOC_LENGTH; COLLECTION_FREQ; WDF; WQF; WDF_MAX; DOC_LENGTH_MIN;
       DOC_LENGTH_MAX; TOTAL_LENGTH]
  | PL2Weight | PL2PlusWeight =>
      [AVERAGE_LENGTH; DOC_LENGTH; DOC_LENGTH_MIN; DOC_LENGTH_MAX;
       COLLECTION_SIZE; COLLECTION_FREQ; WDF; WDF_MAX; WQF]
  | DPHWeight =>
      [DOC_LENGTH; COLLECTION_FREQ; WDF; WQF; WDF_MAX; DOC_LENGTH_MIN;
       DOC_LENGTH_MAX; TOTAL_LENGTH]
  | LMJMWeight =>
      [WQF; QUERY_LENGTH; DOC_LENGTH; WDF; WDF_MAX; COLLECTION_FREQ;
       TOTAL_LENGTH; DOC_LENGTH_MIN]
  | LMDirichletWeight =>
      [WQF; QUERY_LENGTH; DOC_LENGTH; WDF; WDF_MAX; COLLECTION_FREQ;
       TOTAL_LENGTH; DOC_LENGTH_MIN; DOC_LENGTH_MAX]
  | LMAbsDiscountWeight =>
      [WQF; QUERY_LENGTH; DOC_LENGTH; WDF; WDF_MAX; COLLECTION_FREQ;
       TOTAL_LENGTH; DOC_LENGTH_MIN; UNIQUE_TERMS; DOC_LENGTH_MAX]
  | LM2StageWeight =>
      [WQF; QUERY_LENGTH; DOC_LENGTH; WDF; WDF_MAX; COLLECTION_FREQ;
       TOTAL_LENGTH; DOC_LENGTH_MIN; DOC_LENGTH_MAX]
  | CoordWeight => []
  | DiceCoeffWeight => [WQF; QUERY_LENGTH; UNIQUE_TERMS; UNIQUE_TERMS_MIN]
  end.

(** [stats_needed] of a freshly constructed object of the class. *)
Definition ctor_mask (s : scheme) : Z :=
  need_stats (ctor_calls s) stats_needed_init.

End Schemes.

(** ** Driving the synonym combinator *)

Module SynonymOps.

Section WithSubPostList.

Context {P R : Type} {ops : PostList.Ops P R}.

(** The two position-changing calls the matcher makes on a postlist. *)
Inductive call : Type :=
| Next (w_min : double)
| SkipTo (did : docid) (w_min : double).

(** The combinator after one call. *)
Definition step (c : call) (s : Synonym.SynonymPostList P)
  : Synonym.SynonymPostList P :=
  match c with
  | Next w_min => snd (Synonym.next w_min s)
  | SkipTo did w_min => snd (Synonym.skip_to did w_min s)
  end.

(** The combinator after a sequence of calls, first call first. *)
Definition run (cs : list call) (s : Synonym.SynonymPostList P)
  : Synonym.SynonymPostList P :=
  fold_left (fun s c => step c s) cs s.

(** The sub-postlist after the same call made on it with threshold 0. *)
Definition child_step (c : call) (p : P) : P :=
  match c with
  | Next _ => snd (PostList.next d0 p)
  | SkipTo did _ => snd (PostList.skip_to did d0 p)
  end.

(** The combinator with another sub-postlist and tree, everything else
    kept. *)
Definition rebase (p : P) (tree : PostListTree)
  (s : Synonym.SynonymPostList P) : Synonym.SynonymPostList P :=
  Synonym.mk p (Synonym.wt s) (Synonym.want_wdf s)
    (Synonym.want_wdfdocmax s) (Synonym.needs_doclen s) tree.

(** The maximum-wdf-in-document value handed to [get_sumpart]. *)
Definition passed_wdfdocmax (s : Synonym.SynonymPostList P)
  (doclen unique_terms wdfdocmax : termcount) : termcount :=
  let '(_, _, _, wdfdocmax') :=
    Synonym.get_weight_args s doclen unique_terms wdfdocmax in
  wdfdocmax'.

(** [string SynonymPostList::get_description() const], given the
    sub-postlist's own [get_description]. *)
Definition get_description (pl_get_description : P -> string)
  (s : Synonym.SynonymPostList P) : string :=
  let desc := "SynonymPostList("%string in
  let desc := (desc ++ pl_get_description (Synonym.pl s))%string in
  let desc := (desc ++ String ")"%char EmptyString)%string in
  desc.

End WithSubPostList.

End SynonymOps.

(** ** [HoneyTermList] (honey_termlist.h) *)

Module HoneyTermList.

(** The members read by the inline member functions. *)
Record t : Type := mk {
  did : docid;
  doclen : termcount;
  termlist_size : termcount
}.

(** [Xapian::termcount get_doclength() const] *)
Definition get_doclength (tl : t) : termcount := doclen tl.

(** [Xapian::termcount size() const] *)
Definition size (tl : t) : termcount := termlist_size tl.

(** [Xapian::termcount get_unique_terms() const]:
    [std::min(termlist_size, doclen)]. *)
Definition get_unique_terms (tl : t) : termcount :=
  N.min (termlist_size tl) (doclen tl).

End HoneyTermList.

(** ** [Honey::fragment] (honey_spelling.h) *)

Module HoneyFragment.

(** [char data[4]]. *)
Record fragment : Type := mk {
  data0 : ascii;
  data1 : ascii;
  data2 : ascii;
  data3 : ascii
}.

Definition data (f : fragment) : list ascii :=
  [data0 f; data1 f; data2 f; data3 f].

(** [std::memcmp(s1, s2, n)]: compares the first [n] bytes as
    [unsigned char]; only the sign of the result is specified, and that is
    what is returned. *)
Fixpoint memcmp (s1 s2 : list ascii) (n : nat) : comparison :=
  match n with
  | O => Eq
  | S n' =>
      match s1, s2 with
      | c1 :: t1, c2 :: t2 =>
          match N.compare (N_of_ascii c1) (N_of_ascii c2) with
          | Eq => memcmp t1 t2 n'
          | c => c
          end
      | _, _ => Eq
      end
  end.

(** [bool operator<(const fragment& b) const]:
    [std::memcmp(data, b.data, 4) < 0]. *)
Definition lt (a b : fragment) : bool :=
  match memcmp (data a) (data b) 4 with
  | Lt => true
  | _ => false
  end.

(** [operator std::string() const]:
    [std::string(data, data[0] == 'M' ? 4 : 3)]. *)
Definition to_string (f : fragment) : list ascii :=
  firstn (if Ascii.eqb (data0 f) "M"%char then 4 else 3)%nat (data f).

End HoneyFragment.

(** ** [FieldInfo] and [RangeProc] (queryparser_internal.h) *)

Module QueryParserInternal.

Inductive filter_type : Type := NON_BOOLEAN | BOOLEAN | BOOLEAN_EXCLUSIVE.

Section WithProcessors.

(** The processor classes are opaque here; a pointer to one may be null. *)
Variables FieldProcessor RangeProcessor : Type.

Record FieldInfo : Type := mkFieldInfo {
  type : filter_type;
  grouping : string;
  prefixes : list string;
  proc : option FieldProcessor
}.

(** [explicit FieldInfo(filter_type type_)] *)
Definition FieldInfo_type (type_ : filter_type) : FieldInfo :=
  mkFieldInfo type_ EmptyString [] None.

(** [FieldInfo(filter_type type_, std::string_view grouping_)] *)
Definition FieldInfo_grouping (type_ : filter_type) (grouping_ : string)
  : FieldInfo :=
  mkFieldInfo type_ grouping_ [] None.

(** [FieldInfo(filter_type type_, Xapian::FieldProcessor* proc_,
               std::string_view grouping_ = {})] *)
Definition FieldInfo_proc (type_ : filter_type)
  (proc_ : option FieldProcessor) (grouping_ : string) : FieldInfo :=
  mkFieldInfo type_ grouping_ [] proc_.

(** [FieldInfo& append(std::string_view prefix)] *)
Definition append (prefix : string) (fi : FieldInfo) : FieldInfo :=
  mkFieldInfo (type fi) (grouping fi) (prefixes fi ++ [prefix]) (proc fi).

Record RangeProc : Type := mkRangeProc {
  range_proc : option RangeProcessor;
  range_grouping : string;
  default_grouping : bool
}.

(** [RangeProc(RangeProcessor* range_proc, const std::string* grouping_)] *)
Definition RangeProc_ctor (range_proc_ : option RangeProcessor)
  (grouping_ : option string) : RangeProc :=
  mkRangeProc range_proc_
    (match grouping_ with Some g => g | None => EmptyString end)
    (match grouping_ with Some _ => false | None => true end).

(** The [grouping_] argument a [RangeProc] was built from. *)
Definition grouping_argument (r : RangeProc) : option string :=
  if default_grouping r then None else Some (range_grouping r).

End WithProcessors.

End QueryParserInternal.

(** ** Expiry of old snapshots (make-xapian-git-snapshot-tarballs) *)

Module SnapshotExpiry.

Section WithFiles.

(** The entries matched by [glob "$d/old/*.tar.?z"], and Perl's [-M]: the
    age of a file in days. *)
Variable File : Type.
Variable M : File -> Q.

Definition num_of_days_to_keep : Q := 7 # 1.

(** [grep {-M $_ > $num_of_days_to_keep} @o] *)
Definition too_old (f : File) : bool :=
  negb (Qle_bool (M f) num_of_days_to_keep).

(** The files passed to [unlink] by
    [my $n = scalar @o; @o = grep {...} @o; $n -= scalar @o;
     unlink @o if $n > 0;]. *)
Definition unlinked (o : list File) : list File :=
  let n := Z.of_nat (List.length o) in
  let o' := filter too_old o in
  let n := n - Z.of_nat (List.length o') in
  if 0 <? n then o' else [].

(** What is left of the directory listing once the files passed to
    [unlink] are gone. *)
Definition remaining (o : list File) : list File :=
  let n := Z.of_nat (List.length o) in
  let o' := filter too_old o in
  let n := n - Z.of_nat (List.length o') in
  if 0 <? n then filter (fun f => negb (too_old f)) o else o.

End WithFiles.

End SnapshotExpiry.

(** ** Specification vocabulary *)

(** The declared set of a mask: the flags that test as declared. *)
Definition declared (stats_needed : Z) : list Weight.stat_flags :=
  filter (Weight.needs stats_needed) Weight.all_flags.

(** The flags that [need_stat(f)] declares: [f] itself when its value is
    its own, the three flags of value 1 together, and none for a flag of
    value 0. *)
Definition declared_with (f : Weight.stat_flags) : list Weight.stat_flags :=
  match f with
  | Weight.COLLECTION_SIZE | Weight.RSET_SIZE | Weight.QUERY_LENGTH
  | Weight.WQF => []
  | Weight.TERMFREQ | Weight.RELTERMFREQ | Weight.COLLECTION_FREQ =>
      [Weight.TERMFREQ; Weight.RELTERMFREQ; Weight.COLLECTION_FREQ]
  | f => [f]
  end.

(** [x'] is [x] with negative values replaced by zero: what
    [if (x < 0) x = 0;] leaves in [x]. *)
Definition clamped_at_zero (x x' : double) : Prop :=
  (dlt x d0 = true -> x' = d0)
  /\ (dlt x d0 = false -> x' = x)
  /\ (is_nan x = false -> dge x' d0 = true).

(** [b'] is [b] clamped into [[0, 1]]. *)
Definition clamped_to_unit (b b' : double) : Prop :=
  (dlt b d0 = true -> b' = d0)
  /\ (dlt b d0 = false -> dgt b d1 = true -> b' = d1)
  /\ (dlt b d0 = false -> dgt b d1 = false -> b' = b)
  /\ (is_nan b = false -> dle d0 b' = true /\ dle b' d1 = true).

(** The mask the BM25 family declares for given (clamped) parameters: the
    bits of [TERMFREQ], [WDF] and [WDF_MAX] always; [DOC_LENGTH_MIN] and
    [AVERAGE_LENGTH], and [DOC_LENGTH], only under the conditions below. *)
Definition bm25_uses_length (k1 k2 b : double) : bool :=
  dne k2 d0 || (dne k1 d0 && dne b d0).

Definition bm25_mask (k1 k2 b : double) : Z :=
  1 + 2 + 64 + (if bm25_uses_length k1 k2 b then 16 + 4 + 8 else 0).

(** What the BM25 family's parameterised constructors declare, in terms of
    the stored parameters [k1 k2 k3 b], the resulting mask and the list of
    [need_stat] calls made. *)
Definition declares_only_required
  (k1 k2 k3 b : double) (mask : Z) (calls : list Weight.stat_flags) : Prop :=
  mask = bm25_mask k1 k2 b
  /\ Weight.needs mask Weight.DOC_LENGTH = bm25_uses_length k1 k2 b
  /\ Weight.needs mask Weight.DOC_LENGTH_MIN = bm25_uses_length k1 k2 b
  /\ Weight.needs mask Weight.AVERAGE_LENGTH = bm25_uses_length k1 k2 b
  /\ (In Weight.DOC_LENGTH calls <-> bm25_uses_length k1 k2 b = true)
  /\ (In Weight.DOC_LENGTH_MIN calls <-> bm25_uses_length k1 k2 b = true)
  /\ (In Weight.AVERAGE_LENGTH calls <-> bm25_uses_length k1 k2 b = true)
  /\ (In Weight.QUERY_LENGTH calls <-> dne k2 d0 = true)
  /\ (In Weight.WQF calls <-> dne k3 d0 = true)
  /\ (forall g, In g calls ->
        In g [Weight.COLLECTION_SIZE; Weight.RSET_SIZE; Weight.TERMFREQ;
              Weight.RELTERMFREQ; Weight.WDF; Weight.WDF_MAX;
              Weight.DOC_LENGTH_MIN; Weight.AVERAGE_LENGTH;
              Weight.DOC_LENGTH; Weight.QUERY_LENGTH; Weight.WQF]).

(** * Properties *)

(** ** Statistics negotiation *)

Module NegotiationFacts.

Import Weight.

Lemma need_stat_bits (S : Z) (f : stat_flags) (i : Z) :
  bit_declared (need_stat f S) i
  = bit_declared S i || bit_declared (flag_value f) i.
Proof. unfold bit_declared, need_stat. apply Z.lor_spec. Qed.

Lemma need_stat_idem (S : Z) (f : stat_flags) :
  need_stat f (need_stat f S) = need_stat f S.
Proof.
  unfold need_stat. rewrite <- Z.lor_assoc. now rewrite Z.lor_diag.
Qed.

Lemma need_stat_comm (S : Z) (f g : stat_flags) :
  need_stat f (need_stat g S) = need_stat g (need_stat f S).
Proof.
  unfold need_stat. rewrite <- !Z.lor_assoc.
  f_equal. apply Z.lor_comm.
Qed.

Lemma need_stats_cons (f : stat_flags) (fs : list stat_flags) (S : Z) :
  need_stats (f :: fs) S = need_stats fs (need_stat f S).
Proof. reflexivity. Qed.

Lemma need_stats_app (fs gs : list stat_flags) (S : Z) :
  need_stats (fs ++ gs) S = need_stats gs (need_stats fs S).
Proof. unfold need_stats. apply fold_left_app. Qed.

(** The mask after a sequence of calls is the old mask or-ed with the
    values of the flags passed. *)
Lemma need_stats_lor (fs : list stat_flags) (S : Z) :
  need_stats fs S = Z.lor S (need_stats fs 0).
Proof.
  revert S. induction fs as [|f fs IH]; intros S.
  - cbn. now rewrite Z.lor_0_r.
  - rewrite !need_stats_cons, IH, (IH (need_stat f 0)).
    unfold need_stat. rewrite Z.lor_0_l. symmetry. apply Z.lor_assoc.
Qed.

Lemma need_stats_keeps_bits (fs : list stat_flags) (S : Z) (i : Z) :
  bit_declared S i = true -> bit_declared (need_stats fs S) i = true.
Proof.
  revert S. induction fs as [|f fs IH]; intros S HS; [exact HS|].
  rewrite need_stats_cons. apply IH.
  rewrite need_stat_bits, HS. reflexivity.
Qed.

Lemma needs_lor (S x : Z) (g : stat_flags) :
  needs (Z.lor S x) g
  = needs S g || negb (Z.land x (flag_value g) =? 0).
Proof.
  unfold needs. rewrite Z.land_lor_distr_l.
  destruct (Z.eqb_spec (Z.land S (flag_value g)) 0) as [E1|E1];
    destruct (Z.eqb_spec (Z.land x (flag_value g)) 0) as [E2|E2]; cbn;
    destruct (Z.eqb_spec
                (Z.lor (Z.land S (flag_value g)) (Z.land x (flag_value g))) 0)
      as [E|E]; try reflexivity; exfalso.
  - apply E. rewrite E1, E2. reflexivity.
  - apply Z.lor_eq_0_iff in E. tauto.
  - apply Z.lor_eq_0_iff in E. tauto.
  - apply Z.lor_eq_0_iff in E. tauto.
Qed.

Lemma need_stats_keeps_needs (fs : list stat_flags) (S : Z) (g : stat_flags) :
  needs S g = true -> needs (need_stats fs S) g = true.
Proof.
  intros H. rewrite need_stats_lor, needs_lor, H. reflexivity.
Qed.

(** The mask stays a 32-bit [int]. *)
Lemma flag_value_int_range (f : stat_flags) : int_range (flag_value f).
Proof. unfold int_range. destruct f; cbn; lia. Qed.

Lemma high_bits_of_int (x : Z) (i : Z) :
  int_range x -> 31 <= i -> Z.testbit x i = (x <? 0).
Proof.
  unfold int_range. intros Hx Hi.
  destruct (Z.ltb_spec x 0) as [Hneg|Hpos].
  - apply Z.bits_above_log2_neg; [exact Hneg|].
    destruct (Z.eq_dec (Z.pred (- x)) 0) as [->|Hnz]; [cbn; lia|].
    assert (Z.log2 (Z.pred (- x)) < 31) by (apply Z.log2_lt_pow2; lia).
    lia.
  - destruct (Z.eq_dec x 0) as [->|Hnz]; [apply Z.bits_0|].
    apply Z.bits_above_log2; [exact Hpos|].
    assert (Z.log2 x < 31) by (apply Z.log2_lt_pow2; lia).
    lia.
Qed.

Lemma small_of_high_bits_clear (x : Z) :
  (forall i, 31 <= i -> Z.testbit x i = false) -> 0 <= x < 2147483648.
Proof.
  intros Hx.
  assert (H0 : 0 <= x).
  { apply Z.bits_iff_nonneg_ex. exists 31. intros m Hm. apply Hx. lia. }
  split; [exact H0|].
  destruct (Z.eq_dec x 0) as [->|Hnz]; [reflexivity|].
  change 2147483648 with (2 ^ 31).
  apply Z.log2_lt_pow2; [lia|].
  destruct (Z.lt_ge_cases (Z.log2 x) 31) as [Hlt|Hge]; [exact Hlt|].
  exfalso.
  assert (Hb : Z.testbit x (Z.log2 x) = true) by (apply Z.bit_log2; lia).
  rewrite Hx in Hb by lia. discriminate.
Qed.

Lemma int_of_high_bits (x : Z) (s : bool) :
  (forall i, 31 <= i -> Z.testbit x i = s) -> int_range x.
Proof.
  intros Hx. unfold int_range. destruct s.
  - assert (Hn : 0 <= Z.lnot x < 2147483648).
    { apply small_of_high_bits_clear. intros i Hi.
      rewrite Z.lnot_spec by lia. rewrite Hx by exact Hi. reflexivity. }
    unfold Z.lnot in Hn. lia.
  - pose proof (small_of_high_bits_clear x Hx). lia.
Qed.

Lemma lor_int_range (a b : Z) :
  int_range a -> int_range b -> int_range (Z.lor a b).
Proof.
  intros Ha Hb.
  apply (int_of_high_bits _ ((a <? 0) || (b <? 0))).
  intros i Hi. rewrite Z.lor_spec.
  now rewrite (high_bits_of_int a i Ha Hi), (high_bits_of_int b i Hb Hi).
Qed.

Lemma need_stat_int_range (f : stat_flags) (S : Z) :
  int_range S -> int_range (need_stat f S).
Proof.
  intros H. apply lor_int_range; [exact H | apply flag_value_int_range].
Qed.

(** Two flags whose bits overlap: exactly those of equal non-zero value. *)
Lemma flag_values_disjoint (f g : stat_flags) :
  f <> g -> ~ (flag_value f = 1 /\ flag_value g = 1) ->
  Z.land (flag_value f) (flag_value g) = 0.
Proof.
  intros Hfg H1.
  destruct f, g; try reflexivity; try congruence;
    exfalso; apply H1; split; reflexivity.
Qed.

Lemma needs_need_stat (f g : stat_flags) (S : Z) :
  needs (need_stat f S) g
  = needs S g || negb (Z.land (flag_value f) (flag_value g) =? 0).
Proof. unfold need_stat. apply needs_lor. Qed.

Lemma all_flags_complete (f : stat_flags) : In f all_flags.
Proof. destruct f; cbn; tauto. Qed.

Lemma declared_iff (S : Z) (g : stat_flags) :
  In g (declared S) <-> needs S g = true.
Proof.
  unfold declared. rewrite filter_In. split; [tauto|].
  intros H. split; [apply all_flags_complete | exact H].
Qed.

Lemma declared_with_overlap (f g : stat_flags) :
  negb (Z.land (flag_value f) (flag_value g) =? 0)
  = existsb (fun h => if stat_flags_eq_dec g h then true else false)
      (declared_with f).
Proof. destruct f, g; reflexivity. Qed.

Lemma declared_with_iff (f g : stat_flags) :
  In g (declared_with f)
  <-> negb (Z.land (flag_value f) (flag_value g) =? 0) = true.
Proof.
  rewrite declared_with_overlap, existsb_exists. split.
  - intros H. exists g. split; [exact H|].
    destruct (stat_flags_eq_dec g g); [reflexivity | congruence].
  - intros (h & Hin & Hh).
    destruct (stat_flags_eq_dec g h) as [->|]; [exact Hin | discriminate].
Qed.

(** C7, as stated, fails: after [need_stat(WQF)] on a fresh instance the
    declared set is still empty, so it is not S with WQF added; and after
    [need_stat(TERMFREQ)] it holds [RELTERMFREQ] and [COLLECTION_FREQ] as
    well, so it is not S with TERMFREQ alone added. *)
Lemma need_stat_union_counterexample :
  declared stats_needed_init = []
  /\ declared (need_stat WQF stats_needed_init) = []
  /\ ~ In WQF (declared (need_stat WQF stats_needed_init))
  /\ declared (need_stat TERMFREQ stats_needed_init)
     = [TERMFREQ; RELTERMFREQ; COLLECTION_FREQ]
  /\ In RELTERMFREQ (declared (need_stat TERMFREQ stats_needed_init)).
Proof.
  split; [reflexivity|]. split; [reflexivity|].
  split; [intros []|]. split; [reflexivity|].
  cbn. tauto.
Qed.

(** C7, amended.  [need_stat] is additive, idempotent and monotonic, with
    a flag declared when [stats_needed & flag] is non-zero: after
    [need_stat(f)] the declared set is the one before together with the
    flags declared with [f] ([f] itself when its value is its own;
    [TERMFREQ], [RELTERMFREQ] and [COLLECTION_FREQ] together; nothing for
    the flags of value 0), and on the mask the bits are those before
    together with the bits of [f]; a second [need_stat(f)] changes nothing;
    and no sequence of [need_stat] calls clears a bit or removes a flag
    from the declared set. *)
Theorem need_stat_additive_idempotent_monotonic :
  (forall (S : Z) (f g : stat_flags),
      In g (declared (need_stat f S))
      <-> In g (declared S) \/ In g (declared_with f))
  /\ (forall (S : Z) (f : stat_flags) (i : Z),
         bit_declared (need_stat f S) i
         = bit_declared S i || bit_declared (flag_value f) i)
  /\ (forall (S : Z) (f : stat_flags),
         need_stat f (need_stat f S) = need_stat f S)
  /\ (forall (fs : list stat_flags) (S : Z) (i : Z),
         bit_declared S i = true -> bit_declared (need_stats fs S) i = true)
  /\ (forall (fs : list stat_flags) (S : Z) (g : stat_flags),
         In g (declared S) -> In g (declared (need_stats fs S))).
Proof.
  split.
  { intros S f g.
    rewrite !declared_iff, declared_with_iff, needs_need_stat.
    apply orb_true_iff. }
  split; [exact need_stat_bits|].
  split; [exact need_stat_idem|].
  split; [exact need_stats_keeps_bits|].
  intros fs S g. rewrite !declared_iff. apply need_stats_keeps_needs.
Qed.

Lemma need_stat_additive_idempotent_monotonic_witness :
  bit_declared 2 1 = true
  /\ bit_declared (need_stats [DOC_LENGTH; WDF; TERMFREQ] 2) 1 = true
  /\ In DOC_LENGTH (declared 8)
  /\ In DOC_LENGTH (declared (need_stats [WDF; WQF] 8))
  /\ In WDF (declared (need_stat WDF 8)).
Proof.
  destruct need_stat_additive_idempotent_monotonic
    as (Hunion & _ & _ & Hbits & Hflags).
  assert (Hd : In DOC_LENGTH (declared 8)) by (cbn; tauto).
  split; [reflexivity|].
  split; [apply Hbits; reflexivity|].
  split; [exact Hd|].
  split; [apply Hflags; exact Hd|].
  apply Hunion. right. cbn. tauto.
Defined.

(** C8, as stated, fails: [TERMFREQ] and [RELTERMFREQ] are distinct flags,
    [RELTERMFREQ] is not declared on a fresh instance, and after
    [need_stat(TERMFREQ)] the test [stats_needed & RELTERMFREQ] succeeds. *)
Lemma need_stat_frame_counterexample :
  TERMFREQ <> RELTERMFREQ
  /\ needs stats_needed_init RELTERMFREQ = false
  /\ needs (need_stat TERMFREQ stats_needed_init) RELTERMFREQ = true.
Proof. split; [discriminate | split; reflexivity]. Qed.

(** C8, amended.  For distinct flags [f] and [g] that are not both among
    the flags of value 1 ([TERMFREQ], [RELTERMFREQ], [COLLECTION_FREQ]),
    [need_stat(f)] leaves the declared status of [g] unchanged.  The flags
    of value 1 are declared together, and a flag of value 0
    ([COLLECTION_SIZE], [RSET_SIZE], [QUERY_LENGTH], [WQF]) never tests as
    declared. *)
Theorem need_stat_frame :
  (forall (f g : stat_flags) (S : Z),
      f <> g -> ~ (flag_value f = 1 /\ flag_value g = 1) ->
      needs (need_stat f S) g = needs S g)
  /\ (forall (f g : stat_flags) (S : Z),
         flag_value f = 1 -> flag_value g = 1 ->
         needs (need_stat f S) g = true)
  /\ (forall (g : stat_flags) (S : Z),
         flag_value g = 0 -> needs S g = false).
Proof.
  split; [|split].
  - intros f g S Hfg H1.
    rewrite needs_need_stat, (flag_values_disjoint f g Hfg H1).
    cbn. apply orb_false_r.
  - intros f g S Hf Hg.
    rewrite needs_need_stat, Hf, Hg. cbn. apply orb_true_r.
  - intros g S Hg. unfold needs. rewrite Hg, Z.land_0_r. reflexivity.
Qed.

Lemma need_stat_frame_witness :
  needs (need_stat WDF 8) DOC_LENGTH = needs 8 DOC_LENGTH
  /\ needs (need_stat COLLECTION_FREQ 0) TERMFREQ = true
  /\ needs 1023 WQF = false.
Proof.
  split; [|split].
  - apply (proj1 need_stat_frame); [discriminate|].
    intros [H _]; discriminate H.
  - apply (proj1 (proj2 need_stat_frame)); reflexivity.
  - apply (proj2 (proj2 need_stat_frame)); reflexivity.
Defined.

End NegotiationFacts.

(** ** Comparisons on [double] *)

Module DoubleFacts.

Lemma SFcompare_swap (x y : double) :
  SFcompare y x = option_map CompOpp (SFcompare x y).
Proof.
  destruct x as [sx|sx| |sx mx ex], y as [sy|sy| |sy my ey];
    try destruct sx; try destruct sy; try reflexivity; cbn;
    rewrite (Z.compare_antisym ey ex);
    destruct (ey ?= ex); cbn; try reflexivity;
    rewrite (Pos.compare_cont_antisym mx my Eq); reflexivity.
Qed.

Lemma SFcompare_nan_iff (x y : double) :
  SFcompare x y = None <-> is_nan x = true \/ is_nan y = true.
Proof.
  destruct x as [sx|sx| |sx mx ex], y as [sy|sy| |sy my ey]; cbn;
    try destruct sx; try destruct sy; cbn;
    split; intros H; try reflexivity; try discriminate;
    try (now left); try (now right); destruct H; discriminate.
Qed.

(** Without NaN, "not less" is "greater or equal". *)
Lemma not_lt_ge (x y : double) :
  is_nan x = false -> is_nan y = false ->
  dlt x y = false -> dge x y = true.
Proof.
  unfold dlt, dge, SFltb, SFleb. intros Hx Hy.
  rewrite (SFcompare_swap x y).
  destruct (SFcompare x y) as [c|] eqn:E.
  - destruct c; cbn; congruence.
  - apply SFcompare_nan_iff in E. destruct E; congruence.
Qed.

Lemma not_gt_le (x y : double) :
  is_nan x = false -> is_nan y = false ->
  dgt x y = false -> dle x y = true.
Proof.
  unfold dgt, dle, SFltb, SFleb. intros Hx Hy.
  rewrite (SFcompare_swap x y).
  destruct (SFcompare x y) as [c|] eqn:E.
  - destruct c; cbn; congruence.
  - apply SFcompare_nan_iff in E. destruct E; congruence.
Qed.

Lemma lt_le (x y : double) : dlt x y = true -> dle x y = true.
Proof.
  unfold dlt, dle, SFltb, SFleb.
  destruct (SFcompare x y) as [[| |]|]; congruence.
Qed.

Lemma lt_not_nan_l (x y : double) : dlt x y = true -> is_nan x = false.
Proof. destruct x, y; cbn; congruence. Qed.

Lemma clamp_at_zero (x : double) :
  clamped_at_zero x (if dlt x d0 then d0 else x).
Proof.
  unfold clamped_at_zero. split; [|split].
  - intros ->. reflexivity.
  - intros ->. reflexivity.
  - intros Hx. destruct (dlt x d0) eqn:E; [reflexivity|].
    apply not_lt_ge; [exact Hx | reflexivity | exact E].
Qed.

Lemma clamp_to_unit (b : double) :
  clamped_to_unit b
    (if dlt b d0 then d0 else if dgt b d1 then d1 else b).
Proof.
  unfold clamped_to_unit. split; [|split; [|split]].
  - intros ->. reflexivity.
  - intros -> ->. reflexivity.
  - intros -> ->. reflexivity.
  - intros Hb. destruct (dlt b d0) eqn:E0; [split; reflexivity|].
    destruct (dgt b d1) eqn:E1; [split; reflexivity|].
    split.
    + apply (not_lt_ge b d0); [exact Hb | reflexivity | exact E0].
    + apply not_gt_le; [exact Hb | reflexivity | exact E1].
Qed.

End DoubleFacts.

(** ** The BM25 and BM25+ constructors *)

Module BM25Facts.

Import Weight.

Lemma plus_calls_same (k1 k2 k3 b : double) :
  BM25Plus.need_stat_calls k1 k2 k3 b = BM25.need_stat_calls k1 k2 k3 b.
Proof. reflexivity. Qed.

Lemma calls_declare_only_required (k1 k2 k3 b : double) :
  declares_only_required k1 k2 k3 b
    (need_stats (BM25.need_stat_calls k1 k2 k3 b) stats_needed_init)
    (BM25.need_stat_calls k1 k2 k3 b).
Proof.
  unfold declares_only_required, BM25.need_stat_calls, bm25_mask,
    bm25_uses_length.
  destruct (dne k1 d0), (dne k2 d0), (dne k3 d0), (dne b d0); cbn;
    repeat (split; try reflexivity);
    intros; try discriminate; intuition (try discriminate; auto).
Qed.

(** [TradWeight(k)] is [BM25Weight(k, 0, 0, 1, 0)]: it needs the length
    statistics exactly when [k] is non-zero after clamping. *)
Lemma TradWeight_mask (k : double) :
  BM25.stats_needed (BM25.TradWeight k)
  = bm25_mask (BM25.param_k1 (BM25.TradWeight k)) d0 d1.
Proof.
  unfold BM25.TradWeight.
  destruct (calls_declare_only_required
              (BM25.param_k1 (BM25.BM25Weight k d0 d0 d1 d0)) d0 d0 d1)
    as (Hm & _).
  exact Hm.
Qed.

Lemma default_is_parameterised :
  BM25.BM25Weight_default
  = BM25.BM25Weight d1 d0 d1 BM25.d_half BM25.d_half
  /\ BM25Plus.BM25PlusWeight_default
     = BM25Plus.BM25PlusWeight d1 d0 d1 BM25.d_half BM25.d_half d1.
Proof. split; reflexivity. Qed.

(** C6, as stated, fails: with [k1 = 0], [b = 0.5] (so [k1 * b = 0]) and
    [k2 = 1] the constructor declares [DOC_LENGTH], [DOC_LENGTH_MIN] and
    [AVERAGE_LENGTH]. *)
Lemma bm25_length_stats_counterexample :
  deq (dmul d0 BM25.d_half) d0 = true
  /\ (let w := BM25.BM25Weight d0 d1 d0 BM25.d_half BM25.d_half in
      needs (BM25.stats_needed w) DOC_LENGTH = true
      /\ needs (BM25.stats_needed w) DOC_LENGTH_MIN = true
      /\ needs (BM25.stats_needed w) AVERAGE_LENGTH = true).
Proof. cbv. repeat split. Qed.

(** C6, amended.  The parameterised constructors of [BM25Weight] and
    [BM25PlusWeight] declare [TERMFREQ]/[RELTERMFREQ], [WDF] and [WDF_MAX]
    always; [DOC_LENGTH], [DOC_LENGTH_MIN] and [AVERAGE_LENGTH] exactly when
    [k2 != 0] or ([k1 != 0] and [b != 0]) for the stored parameters, hence
    not when [k2 = 0] and [k1 = 0 or b = 0]; they call
    [need_stat(QUERY_LENGTH)] exactly when [k2 != 0] and [need_stat(WQF)]
    exactly when [k3 != 0]; and they declare nothing else. *)
Theorem bm25_declares_only_required
  (k1 k2 k3 b min_normlen delta : double) :
  (let w := BM25.BM25Weight k1 k2 k3 b min_normlen in
   declares_only_required
     (BM25.param_k1 w) (BM25.param_k2 w) (BM25.param_k3 w) (BM25.param_b w)
     (BM25.stats_needed w) (BM25.ctor_calls k1 k2 k3 b min_normlen))
  /\ (let w := BM25Plus.BM25PlusWeight k1 k2 k3 b min_normlen delta in
      declares_only_required
        (BM25Plus.param_k1 w) (BM25Plus.param_k2 w) (BM25Plus.param_k3 w)
        (BM25Plus.param_b w) (BM25Plus.stats_needed w)
        (BM25Plus.ctor_calls k1 k2 k3 b min_normlen delta)).
Proof.
  split; cbv zeta.
  - apply calls_declare_only_required.
  - unfold BM25Plus.ctor_calls. cbv zeta.
    rewrite plus_calls_same. apply calls_declare_only_required.
Qed.

Lemma bm25_declares_only_required_witness :
  (let w := BM25.BM25Weight d0 d0 d0 BM25.d_half BM25.d_half in
   needs (BM25.stats_needed w) DOC_LENGTH = false
   /\ BM25.stats_needed w = 67
   /\ ~ In WQF (BM25.ctor_calls d0 d0 d0 BM25.d_half BM25.d_half))
  /\ (let w := BM25Plus.BM25PlusWeight d1 d0 d1 d0 BM25.d_half d1 in
      needs (BM25Plus.stats_needed w) AVERAGE_LENGTH = false
      /\ In WQF (BM25Plus.ctor_calls d1 d0 d1 d0 BM25.d_half d1)).
Proof.
  split; cbv zeta.
  - destruct (proj1 (bm25_declares_only_required
                       d0 d0 d0 BM25.d_half BM25.d_half d0))
      as (Hm & Hd & _ & _ & _ & _ & _ & _ & Hw & _).
    split; [rewrite Hd; reflexivity|].
    split; [rewrite Hm; reflexivity|].
    intros Hin. apply Hw in Hin. discriminate Hin.
  - destruct (proj2 (bm25_declares_only_required
                       d1 d0 d1 d0 BM25.d_half d1))
      as (_ & _ & _ & Ha & _ & _ & _ & _ & Hw & _).
    split; [rewrite Ha; reflexivity|].
    apply Hw. reflexivity.
Defined.

(** C10, as stated, fails: a NaN argument is stored as it is, and the
    constructed instance does not satisfy [k1 >= 0]. *)
Lemma bm25_sanitize_counterexample :
  let w := BM25.BM25Weight S754_nan d0 d0 d0 BM25.d_half in
  BM25.param_k1 w = S754_nan /\ dge (BM25.param_k1 w) d0 = false.
Proof. split; reflexivity. Qed.

(** C10, amended.  The parameterised constructors of [BM25Weight] and
    [BM25PlusWeight] never fail; they replace a negative [k1], [k2], [k3]
    (and [delta]) by 0 and leave any other value as given; they replace
    [b < 0] by 0 and [b > 1] by 1 and leave any other [b] as given; so for
    arguments that are not NaN the stored [k1], [k2], [k3] (and [delta]) are
    [>= 0] and the stored [b] lies in [[0, 1]].  [min_normlen] is stored as
    given. *)
Theorem bm25_constructors_sanitize
  (k1 k2 k3 b min_normlen delta : double) :
  (let w := BM25.BM25Weight k1 k2 k3 b min_normlen in
   clamped_at_zero k1 (BM25.param_k1 w)
   /\ clamped_at_zero k2 (BM25.param_k2 w)
   /\ clamped_at_zero k3 (BM25.param_k3 w)
   /\ clamped_to_unit b (BM25.param_b w)
   /\ BM25.param_min_normlen w = min_normlen)
  /\ (let w := BM25Plus.BM25PlusWeight k1 k2 k3 b min_normlen delta in
      clamped_at_zero k1 (BM25Plus.param_k1 w)
      /\ clamped_at_zero k2 (BM25Plus.param_k2 w)
      /\ clamped_at_zero k3 (BM25Plus.param_k3 w)
      /\ clamped_at_zero delta (BM25Plus.param_delta w)
      /\ clamped_to_unit b (BM25Plus.param_b w)
      /\ BM25Plus.param_min_normlen w = min_normlen).
Proof.
  split; cbv zeta; cbn [BM25.BM25Weight BM25.param_k1 BM25.param_k2
    BM25.param_k3 BM25.param_b BM25.param_min_normlen
    BM25Plus.BM25PlusWeight BM25Plus.param_k1 BM25Plus.param_k2
    BM25Plus.param_k3 BM25Plus.param_b BM25Plus.param_delta
    BM25Plus.param_min_normlen];
    repeat match goal with |- _ /\ _ => split end;
    first [ apply DoubleFacts.clamp_at_zero
          | apply DoubleFacts.clamp_to_unit
          | reflexivity ].
Qed.

Lemma bm25_constructors_sanitize_witness :
  (let w := BM25.BM25Weight d_minus1 d1 BM25.d_half d2 BM25.d_half in
   BM25.param_k1 w = d0
   /\ dge (BM25.param_k2 w) d0 = true
   /\ BM25.param_k3 w = BM25.d_half
   /\ BM25.param_b w = d1)
  /\ (let w := BM25Plus.BM25PlusWeight d1 d1 d1 d_minus1 d0 d_minus1 in
      BM25Plus.param_delta w = d0
      /\ dle d0 (BM25Plus.param_b w) = true
      /\ dle (BM25Plus.param_b w) d1 = true).
Proof.
  split; cbv zeta.
  - destruct (proj1 (bm25_constructors_sanitize
                       d_minus1 d1 BM25.d_half d2 BM25.d_half d0))
      as ((H1 & _ & _) & (_ & _ & H2) & (_ & H3 & _) & (_ & Hb & _ & _) & _).
    split; [apply H1; reflexivity|].
    split; [apply H2; reflexivity|].
    split; [apply H3; reflexivity|].
    apply Hb; reflexivity.
  - destruct (proj2 (bm25_constructors_sanitize
                       d1 d1 d1 d_minus1 d0 d_minus1))
      as (_ & _ & _ & (Hd & _ & _) & (_ & _ & _ & Hb) & _).
    split; [apply Hd; reflexivity|].
    apply Hb; reflexivity.
Defined.

End BM25Facts.

(** ** The synonym combinator *)

Module SynonymFacts.

Import Synonym.

Local Open Scope N_scope.

Section WithSubPostList.

Context {P R : Type} {ops : PostList.Ops P R}.

Lemma WrapperPostList_next_forwards (w : double) (s : SynonymPostList P) :
  same_as_child_step (PostList.next w (pl s)) s (WrapperPostList_next w s).
Proof.
  unfold same_as_child_step, WrapperPostList_next.
  destruct (PostList.next w (pl s)) as [r p']. cbn. repeat split.
Qed.

Lemma WrapperPostList_skip_to_forwards (did : docid) (w : double)
  (s : SynonymPostList P) :
  same_as_child_step (PostList.skip_to did w (pl s)) s
    (WrapperPostList_skip_to did w s).
Proof.
  unfold same_as_child_step, WrapperPostList_skip_to.
  destruct (PostList.skip_to did w (pl s)) as [r p']. cbn. repeat split.
Qed.

Lemma set_weight_owns (w : Weight.t) (s : SynonymPostList P) :
  owns (set_weight w s) w.
Proof. unfold owns, set_weight. cbn. repeat split. Qed.

Lemma get_weight_calls_get_sumpart (s : SynonymPostList P) (w : Weight.t)
  (doclen unique_terms wdfdocmax : termcount) :
  wt s = Some w ->
  get_weight s doclen unique_terms wdfdocmax
  = Some (Weight.get_sumpart w
            (passed_wdf s doclen unique_terms wdfdocmax)
            (passed_doclen s doclen unique_terms wdfdocmax)
            unique_terms
            (if want_wdfdocmax s
             then passed_doclen s doclen unique_terms wdfdocmax
             else wdfdocmax)).
Proof.
  intros Hw. unfold get_weight, passed_wdf, passed_doclen, get_weight_args.
  rewrite Hw. destruct (want_wdfdocmax s); reflexivity.
Qed.

Lemma passed_wdf_cases (s : SynonymPostList P)
  (doclen unique_terms wdfdocmax : termcount) :
  passed_wdf s doclen unique_terms wdfdocmax
  = if want_wdf s
    then if needs_doclen s
         then N.min (PostList.get_wdf (pl s)) doclen
         else PostList.get_wdf (pl s)
    else 0%N.
Proof.
  unfold passed_wdf, get_weight_args, WrapperPostList_get_wdf.
  destruct (want_wdfdocmax s), (want_wdf s), (needs_doclen s);
    try reflexivity;
    destruct (N.ltb_spec doclen (PostList.get_wdf (pl s))); lia.
Qed.

Lemma passed_doclen_cases (s : SynonymPostList P)
  (doclen unique_terms wdfdocmax : termcount) :
  passed_doclen s doclen unique_terms wdfdocmax
  = if want_wdfdocmax s
    then if (doclen =? 0)%N
         then get_doclength (pltree s) (PostList.get_docid (pl s))
         else doclen
    else doclen.
Proof.
  unfold passed_doclen, get_weight_args.
  destruct (want_wdfdocmax s); reflexivity.
Qed.

(** [recalc_maxweight] forwards the owned weight's bound. *)
Lemma recalc_maxweight_forwards (s : SynonymPostList P) (w : Weight.t) :
  wt s = Some w -> recalc_maxweight s = Some (Weight.get_maxpart w).
Proof. intros Hw. unfold recalc_maxweight. now rewrite Hw. Qed.

(** [set_weight] installs the new weight, re-derives [want_wdf] and
    [want_wdfdocmax] from it and leaves the sub-postlist alone. *)
Lemma set_weight_rederives (w : Weight.t) (s : SynonymPostList P) :
  wt (set_weight w s) = Some w
  /\ want_wdf (set_weight w s)
     = Weight.needs (Weight.stats_needed w) Weight.WDF
  /\ want_wdfdocmax (set_weight w s)
     = Weight.needs (Weight.stats_needed w) Weight.WDF_DOC_MAX
  /\ pl (set_weight w s) = pl s
  /\ needs_doclen (set_weight w s) = needs_doclen s.
Proof. repeat split. Qed.

(** When the weight asked for [WDF_DOC_MAX], the document length stands in
    for it. *)
Lemma wdfdocmax_is_doclen (s : SynonymPostList P)
  (doclen unique_terms wdfdocmax : termcount) :
  want_wdfdocmax s = true ->
  get_weight_args s doclen unique_terms wdfdocmax
  = (passed_wdf s doclen unique_terms wdfdocmax,
     passed_doclen s doclen unique_terms wdfdocmax,
     unique_terms,
     passed_doclen s doclen unique_terms wdfdocmax).
Proof.
  intros H. unfold passed_wdf, passed_doclen, get_weight_args.
  rewrite H. reflexivity.
Qed.

End WithSubPostList.

Lemma or_of_count (n : nat) (did : docid) (wdf : termcount) (mw : double) :
  PostList.count_matching_subqs (OrTree.or_of n (OrTree.Term did wdf mw))
  = N.of_nat (S n).
Proof.
  induction n as [|n IH]; [reflexivity|].
  change (PostList.count_matching_subqs
            (OrTree.or_of (S n) (OrTree.Term did wdf mw)))
    with (1 + PostList.count_matching_subqs
                (OrTree.or_of n (OrTree.Term did wdf mw)))%N.
  rewrite IH. lia.
Qed.

(** A sub-postlist whose own [next] depends on the threshold: the
    combinator's [next] does not. *)
Example next_ignores_threshold_on_term :
  let child := OrTree.Term 1 5 BM25.d_half in
  let s := mk child None false false false {| get_doclength := fun _ => 9%N |} in
  PostList.next d1 child = (tt, OrTree.Term 0 5 BM25.d_half)
  /\ PostList.next d0 child = (tt, OrTree.Term 2 5 BM25.d_half)
  /\ pl (snd (next d1 s)) = OrTree.Term 2 5 BM25.d_half.
Proof. repeat split. Qed.




(** C4.  [SynonymPostList::count_matching_subqs()] is 1 for every
    combinator, whatever it wraps; in particular over the OR of 1, 2 and 5
    terms, whose own counts are 1, 2 and 5. *)
Theorem synonym_count_matching_subqs_is_one :
  (forall (P : Type) (s : SynonymPostList P), count_matching_subqs s = 1%N)
  /\ (forall (n : nat) (did : docid) (wdf : termcount) (mw : double)
             (wt : option Weight.t) (ww wm nd : bool) (tree : PostListTree),
         let child := OrTree.or_of n (OrTree.Term did wdf mw) in
         PostList.count_matching_subqs child = N.of_nat (S n)
         /\ count_matching_subqs (mk child wt ww wm nd tree) = 1%N)
  /\ (let child k := OrTree.or_of k (OrTree.Term 1 1 d1) in
      let syn k := mk (child k) None false false false
                      {| get_doclength := fun _ => 1%N |} in
      PostList.count_matching_subqs (child 0%nat) = 1%N
      /\ PostList.count_matching_subqs (child 1%nat) = 2%N
      /\ PostList.count_matching_subqs (child 4%nat) = 5%N
      /\ count_matching_subqs (syn 0%nat) = 1%N
      /\ count_matching_subqs (syn 1%nat) = 1%N
      /\ count_matching_subqs (syn 4%nat) = 1%N).
Proof.
  split; [reflexivity|]. split.
  - intros n did wdf mw wt ww wm nd tree child.
    split; [apply or_of_count | reflexivity].
  - cbv zeta. repeat split.
Qed.

(** C5.  [SynonymPostList::next(w_min)] returns what the wrapped child's
    [next(0.0)] returns and leaves the child as that call leaves it, changing
    nothing else; likewise [skip_to(did, w_min)] and the child's
    [skip_to(did, 0.0)].  The outcome does not depend on [w_min]. *)
Theorem synonym_next_passes_zero_threshold {P R : Type}
  {ops : PostList.Ops P R} (s : SynonymPostList P)
  (w_min : double) (did : docid) :
  same_as_child_step (PostList.next d0 (pl s)) s (next w_min s)
  /\ same_as_child_step (PostList.skip_to did d0 (pl s)) s
       (skip_to did w_min s)
  /\ (forall w' : double,
         next w' s = next w_min s
         /\ skip_to did w' s = skip_to did w_min s).
Proof.
  split; [apply WrapperPostList_next_forwards|].
  split; [apply WrapperPostList_skip_to_forwards|].
  intros w'. split; reflexivity.
Qed.

End SynonymFacts.

(** ** More on statistics negotiation *)

Module NegotiationMore.

Import Weight.

Lemma overlap_is_same_value (f g : stat_flags) :
  negb (Z.land (flag_value f) (flag_value g) =? 0)
  = (flag_value f =? flag_value g) && negb (flag_value g =? 0).
Proof. destruct f, g; reflexivity. Qed.

Lemma need_stats_bits (fs : list stat_flags) (S : Z) (i : Z) :
  Z.testbit (need_stats fs S) i
  = Z.testbit S i || existsb (fun f => Z.testbit (flag_value f) i) fs.
Proof.
  revert S. induction fs as [|f fs IH]; intros S; cbn [existsb].
  - cbn. now rewrite orb_false_r.
  - rewrite NegotiationFacts.need_stats_cons, IH.
    unfold need_stat. rewrite Z.lor_spec. now rewrite orb_assoc.
Qed.

Lemma existsb_same_members {A : Type} (p : A -> bool) (l l' : list A) :
  (forall x, In x l <-> In x l') -> existsb p l = existsb p l'.
Proof.
  intros H. apply eq_true_iff_eq. rewrite !existsb_exists.
  split; intros (x & Hx & Hp); exists x; split; try apply H; assumption.
Qed.

Lemma need_stats_int_range (fs : list stat_flags) (S : Z) :
  int_range S -> int_range (need_stats fs S).
Proof.
  revert S. induction fs as [|f fs IH]; intros S HS; [exact HS|].
  rewrite NegotiationFacts.need_stats_cons. apply IH.
  now apply NegotiationFacts.need_stat_int_range.
Qed.

Lemma sign_bit_test (S : Z) :
  int_range S -> needs S IS_BOOLWEIGHT_ = (S <? 0).
Proof.
  intros HS. unfold needs.
  change (flag_value IS_BOOLWEIGHT_) with (Z.shiftl (-1) 31).
  destruct (Z.ltb_spec S 0) as [Hneg|Hpos].
  - destruct (Z.eqb_spec (Z.land S (Z.shiftl (-1) 31)) 0) as [E|E];
      [|reflexivity].
    exfalso.
    assert (Hb : Z.testbit (Z.land S (Z.shiftl (-1) 31)) 31 = true).
    { rewrite Z.land_spec, (NegotiationFacts.high_bits_of_int S 31 HS)
        by lia.
      destruct (Z.ltb_spec S 0); [reflexivity | lia]. }
    rewrite E, Z.bits_0 in Hb. discriminate.
  - destruct (Z.eqb_spec (Z.land S (Z.shiftl (-1) 31)) 0) as [E|E];
      [reflexivity|].
    exfalso. apply E. apply Z.bits_inj'. intros i Hi.
    rewrite Z.land_spec, Z.bits_0.
    destruct (Z.lt_ge_cases i 31) as [Hlt|Hge].
    + rewrite Z.shiftl_spec_low by lia. apply andb_false_r.
    + rewrite (NegotiationFacts.high_bits_of_int S i HS) by lia.
      destruct (Z.ltb_spec S 0); [lia | reflexivity].
Qed.

(** X1.  After any sequence of [need_stat] calls a flag tests as declared
    ([stats_needed & flag]) exactly when it did before or one of the calls
    passed a flag of the same non-zero value. *)
Theorem needs_after_calls (fs : list stat_flags) (S : Z) (g : stat_flags) :
  needs (need_stats fs S) g
  = needs S g
    || existsb (fun f => (flag_value f =? flag_value g)
                         && negb (flag_value g =? 0)) fs.
Proof.
  revert S. induction fs as [|f fs IH]; intros S; cbn [existsb].
  - cbn. now rewrite orb_false_r.
  - rewrite NegotiationFacts.need_stats_cons, IH,
      NegotiationFacts.needs_need_stat, overlap_is_same_value.
    now rewrite orb_assoc.
Qed.

(** X2.  The mask left by a sequence of [need_stat] calls depends only on
    which flags were passed, not on their order or on repetitions. *)
Theorem need_stats_set_only (fs gs : list stat_flags) (S : Z) :
  (forall f, In f fs <-> In f gs) ->
  need_stats fs S = need_stats gs S.
Proof.
  intros H. apply Z.bits_inj'. intros i _.
  rewrite !need_stats_bits. f_equal. now apply existsb_same_members.
Qed.

Lemma need_stats_set_only_witness :
  need_stats [WDF; DOC_LENGTH; WDF; TERMFREQ] 0
  = need_stats [TERMFREQ; DOC_LENGTH; WDF] 0.
Proof.
  apply need_stats_set_only. intros f. cbn. tauto.
Defined.

(** X3.  Starting from a freshly constructed [Weight], any sequence of
    [need_stat] calls leaves [stats_needed] within the range of a 32-bit
    [int]; [is_bool_weight_()] is then the sign of the mask, and it holds
    exactly when [need_stat(IS_BOOLWEIGHT_)] was among the calls. *)
Theorem fresh_mask_sign (fs : list stat_flags) :
  let m := need_stats fs stats_needed_init in
  int_range m
  /\ is_bool_weight_ m = (m <? 0)
  /\ is_bool_weight_ m = existsb (fun f => if stat_flags_eq_dec f IS_BOOLWEIGHT_
                                           then true else false) fs.
Proof.
  cbv zeta.
  assert (Hr : int_range (need_stats fs stats_needed_init)).
  { apply need_stats_int_range. unfold int_range, stats_needed_init. lia. }
  split; [exact Hr|]. split.
  - unfold is_bool_weight_. now apply sign_bit_test.
  - unfold is_bool_weight_. rewrite needs_after_calls.
    cbn [orb]. change (needs stats_needed_init IS_BOOLWEIGHT_) with false.
    cbn [orb]. induction fs as [|f fs IH]; [reflexivity|].
    cbn [existsb]. rewrite <- IH.
    + f_equal. destruct f; reflexivity.
    + apply need_stats_int_range. unfold int_range, stats_needed_init. lia.
Qed.

End NegotiationMore.

(** ** The built-in constructors *)

Module SchemeFacts.

Import Weight.

Lemma bm25_mask_bool (k1 k2 b : double) :
  needs (bm25_mask k1 k2 b) IS_BOOLWEIGHT_ = false.
Proof. unfold bm25_mask. destruct (bm25_uses_length k1 k2 b); reflexivity. Qed.

Lemma bm25_mask_bounds (k1 k2 b : double) :
  needs (bm25_mask k1 k2 b) WDF = true
  /\ needs (bm25_mask k1 k2 b) WDF_MAX = true
  /\ needs (bm25_mask k1 k2 b) DOC_LENGTH
     = needs (bm25_mask k1 k2 b) DOC_LENGTH_MIN.
Proof.
  unfold bm25_mask. destruct (bm25_uses_length k1 k2 b); repeat split.
Qed.

Lemma BM25_mask (k1 k2 k3 b mn : double) :
  let w := BM25.BM25Weight k1 k2 k3 b mn in
  BM25.stats_needed w
  = bm25_mask (BM25.param_k1 w) (BM25.param_k2 w) (BM25.param_b w).
Proof.
  cbv zeta.
  exact (proj1 (BM25Facts.calls_declare_only_required
                  (BM25.param_k1 (BM25.BM25Weight k1 k2 k3 b mn))
                  (BM25.param_k2 (BM25.BM25Weight k1 k2 k3 b mn))
                  (BM25.param_k3 (BM25.BM25Weight k1 k2 k3 b mn))
                  (BM25.param_b (BM25.BM25Weight k1 k2 k3 b mn)))).
Qed.

Lemma BM25Plus_mask (k1 k2 k3 b mn delta : double) :
  let w := BM25Plus.BM25PlusWeight k1 k2 k3 b mn delta in
  BM25Plus.stats_needed w
  = bm25_mask (BM25Plus.param_k1 w) (BM25Plus.param_k2 w)
      (BM25Plus.param_b w).
Proof.
  cbv zeta.
  exact (proj1 (BM25Facts.calls_declare_only_required
                  (BM25Plus.param_k1
                     (BM25Plus.BM25PlusWeight k1 k2 k3 b mn delta))
                  (BM25Plus.param_k2
                     (BM25Plus.BM25PlusWeight k1 k2 k3 b mn delta))
                  (BM25Plus.param_k3
                     (BM25Plus.BM25PlusWeight k1 k2 k3 b mn delta))
                  (BM25Plus.param_b
                     (BM25Plus.BM25PlusWeight k1 k2 k3 b mn delta)))).
Qed.

Lemma clamp_at_zero_idem (x : double) :
  let x' := if dlt x d0 then d0 else x in
  (if dlt x' d0 then d0 else x') = x'.
Proof.
  cbv zeta. destruct (dlt x d0) eqn:E; [reflexivity|]. now rewrite E.
Qed.

Lemma clamp_to_unit_idem (b : double) :
  let b' := if dlt b d0 then d0 else if dgt b d1 then d1 else b in
  (if dlt b' d0 then d0 else if dgt b' d1 then d1 else b') = b'.
Proof.
  cbv zeta. destruct (dlt b d0) eqn:E0; [reflexivity|].
  destruct (dgt b d1) eqn:E1; [reflexivity|]. now rewrite E0, E1.
Qed.

(** X4.  Of the objects built by the eighteen constructors modelled in
    [Schemes] (the default constructor of each class, for the
    language-model classes the constructor with defaulted arguments; not
    the [TfIdfWeight] constructors taking normalizations),
    [is_bool_weight_()] holds only for [BoolWeight]; it fails for the
    parameterised [BM25Weight] and [BM25PlusWeight] whatever their
    arguments.  A [BoolWeight] asks for no per-document statistic. *)
Theorem only_BoolWeight_is_bool :
  (forall s : Schemes.scheme,
      is_bool_weight_ (Schemes.ctor_mask s) = true
      <-> s = Schemes.BoolWeight)
  /\ (forall k1 k2 k3 b mn delta : double,
         is_bool_weight_ (BM25.stats_needed (BM25.BM25Weight k1 k2 k3 b mn))
         = false
         /\ is_bool_weight_
              (BM25Plus.stats_needed
                 (BM25Plus.BM25PlusWeight k1 k2 k3 b mn delta)) = false)
  /\ (let m := Schemes.ctor_mask Schemes.BoolWeight in
      get_sumpart_needs_wdf_ m = false
      /\ get_sumpart_needs_doclength_ m = false
      /\ get_sumpart_needs_uniqueterms_ m = false
      /\ get_sumpart_needs_wdfdocmax_ m = false).
Proof.
  split; [|split].
  - intros s. destruct s; cbn; split; intros H;
      try reflexivity; discriminate H.
  - intros k1 k2 k3 b mn delta. unfold is_bool_weight_.
    rewrite (BM25_mask k1 k2 k3 b mn), (BM25Plus_mask k1 k2 k3 b mn delta).
    split; apply bm25_mask_bool.
  - cbv zeta. repeat split.
Qed.

(** X5.  Each of the eighteen constructors modelled in [Schemes] (not the
    [TfIdfWeight] constructors taking normalizations) that declares the
    per-document statistic [WDF] also declares its bound [WDF_MAX], and
    each one that declares [DOC_LENGTH] also declares [DOC_LENGTH_MIN]; the
    same holds for the parameterised [BM25Weight] and [BM25PlusWeight] with
    any arguments. *)
Theorem bounds_come_with_statistics :
  (forall s : Schemes.scheme,
      let m := Schemes.ctor_mask s in
      (needs m WDF = true -> needs m WDF_MAX = true)
      /\ (needs m DOC_LENGTH = true -> needs m DOC_LENGTH_MIN = true))
  /\ (forall k1 k2 k3 b mn delta : double,
         let m := BM25.stats_needed (BM25.BM25Weight k1 k2 k3 b mn) in
         let m' := BM25Plus.stats_needed
                     (BM25Plus.BM25PlusWeight k1 k2 k3 b mn delta) in
         (needs m WDF = true -> needs m WDF_MAX = true)
         /\ (needs m DOC_LENGTH = true -> needs m DOC_LENGTH_MIN = true)
         /\ (needs m' WDF = true -> needs m' WDF_MAX = true)
         /\ (needs m' DOC_LENGTH = true -> needs m' DOC_LENGTH_MIN = true)).
Proof.
  split.
  - intros s. destruct s; cbn; split; intros H;
      try reflexivity; discriminate H.
  - intros k1 k2 k3 b mn delta. cbv zeta.
    rewrite (BM25_mask k1 k2 k3 b mn), (BM25Plus_mask k1 k2 k3 b mn delta).
    destruct (bm25_mask_bounds
                (BM25.param_k1 (BM25.BM25Weight k1 k2 k3 b mn))
                (BM25.param_k2 (BM25.BM25Weight k1 k2 k3 b mn))
                (BM25.param_b (BM25.BM25Weight k1 k2 k3 b mn)))
      as (_ & H1 & H2).
    destruct (bm25_mask_bounds
                (BM25Plus.param_k1
                   (BM25Plus.BM25PlusWeight k1 k2 k3 b mn delta))
                (BM25Plus.param_k2
                   (BM25Plus.BM25PlusWeight k1 k2 k3 b mn delta))
                (BM25Plus.param_b
                   (BM25Plus.BM25PlusWeight k1 k2 k3 b mn delta)))
      as (_ & H3 & H4).
    repeat split; intros H; try assumption; congruence.
Qed.

Lemma bounds_come_with_statistics_witness :
  needs (Schemes.ctor_mask Schemes.DLHWeight) WDF_MAX = true
  /\ needs (BM25.stats_needed
              (BM25.BM25Weight d1 d0 d1 BM25.d_half BM25.d_half))
       DOC_LENGTH_MIN = true.
Proof.
  split.
  - apply (proj1 (proj1 bounds_come_with_statistics Schemes.DLHWeight)).
    reflexivity.
  - destruct (proj2 bounds_come_with_statistics
                d1 d0 d1 BM25.d_half BM25.d_half d0) as (_ & H & _).
    apply H. reflexivity.
Defined.

(** The default constructors [BM25Weight()] and [BM25PlusWeight()]
    build the same object as the parameterised constructors called with the
    documented defaults (k1 = 1, k2 = 0, k3 = 1, b = 0.5,
    min_normlen = 0.5, delta = 1). *)
Theorem default_constructors_agree :
  BM25.BM25Weight_default
  = BM25.BM25Weight d1 d0 d1 BM25.d_half BM25.d_half
  /\ BM25Plus.BM25PlusWeight_default
     = BM25Plus.BM25PlusWeight d1 d0 d1 BM25.d_half BM25.d_half d1
  /\ Schemes.ctor_mask Schemes.BM25Weight
     = BM25.stats_needed BM25.BM25Weight_default
  /\ Schemes.ctor_mask Schemes.BM25PlusWeight
     = BM25Plus.stats_needed BM25Plus.BM25PlusWeight_default.
Proof. repeat split. Qed.

(** X6.  Building a [BM25Weight] (or [BM25PlusWeight]) again from the
    parameters stored in a constructed object gives an identical object:
    the clamping of the constructor arguments is idempotent, NaN
    included. *)
Theorem bm25_rebuild_is_identity (k1 k2 k3 b mn delta : double) :
  (let w := BM25.BM25Weight k1 k2 k3 b mn in
   BM25.BM25Weight (BM25.param_k1 w) (BM25.param_k2 w) (BM25.param_k3 w)
     (BM25.param_b w) (BM25.param_min_normlen w) = w)
  /\ (let w := BM25Plus.BM25PlusWeight k1 k2 k3 b mn delta in
      BM25Plus.BM25PlusWeight (BM25Plus.param_k1 w) (BM25Plus.param_k2 w)
        (BM25Plus.param_k3 w) (BM25Plus.param_b w)
        (BM25Plus.param_min_normlen w) (BM25Plus.param_delta w) = w).
Proof.
  pose proof (clamp_at_zero_idem k1) as H1.
  pose proof (clamp_at_zero_idem k2) as H2.
  pose proof (clamp_at_zero_idem k3) as H3.
  pose proof (clamp_at_zero_idem delta) as Hd.
  pose proof (clamp_to_unit_idem b) as Hb.
  cbv zeta in *.
  split; cbv zeta;
    unfold BM25.BM25Weight, BM25Plus.BM25PlusWeight;
    cbn [BM25.param_k1 BM25.param_k2 BM25.param_k3 BM25.param_b
         BM25.param_min_normlen BM25Plus.param_k1 BM25Plus.param_k2
         BM25Plus.param_k3 BM25Plus.param_b BM25Plus.param_min_normlen
         BM25Plus.param_delta];
    rewrite ?H1, ?H2, ?H3, ?Hd, ?Hb; reflexivity.
Qed.

(** X7.  [TradWeight(k)] stores k1 = [k] with negative values replaced by
    0 (any other [k], NaN included, as given), k2 = k3 = 0, b = 1 and
    min_normlen = 0; it declares the document-length statistics exactly
    when the stored k1 is non-zero, which for a [k] that is not NaN means
    [k > 0]; and it never calls [need_stat(WQF)] or
    [need_stat(QUERY_LENGTH)]. *)
Theorem TradWeight_needs (k : double) :
  let w := BM25.TradWeight k in
  BM25.param_k1 w = (if dlt k d0 then d0 else k)
  /\ clamped_at_zero k (BM25.param_k1 w)
  /\ BM25.param_k2 w = d0 /\ BM25.param_k3 w = d0 /\ BM25.param_b w = d1
  /\ BM25.param_min_normlen w = d0
  /\ needs (BM25.stats_needed w) DOC_LENGTH = dne (BM25.param_k1 w) d0
  /\ needs (BM25.stats_needed w) DOC_LENGTH_MIN = dne (BM25.param_k1 w) d0
  /\ needs (BM25.stats_needed w) AVERAGE_LENGTH = dne (BM25.param_k1 w) d0
  /\ (is_nan k = false ->
      needs (BM25.stats_needed w) DOC_LENGTH = dgt k d0)
  /\ ~ In WQF (BM25.ctor_calls k d0 d0 d1 d0)
  /\ ~ In QUERY_LENGTH (BM25.ctor_calls k d0 d0 d1 d0).
Proof.
  cbv zeta.
  split; [reflexivity|].
  split; [apply DoubleFacts.clamp_at_zero|].
  destruct k as [s|s| |s m e]; try destruct s; cbn;
    repeat split; try reflexivity; try discriminate;
    intros H; intuition discriminate.
Qed.

Lemma TradWeight_needs_witness :
  needs (BM25.stats_needed (BM25.TradWeight d2)) DOC_LENGTH = true
  /\ needs (BM25.stats_needed (BM25.TradWeight d_minus1)) DOC_LENGTH = false
  /\ BM25.param_k1 (BM25.TradWeight d_minus1) = d0.
Proof.
  split; [|split].
  - destruct (TradWeight_needs d2)
      as (_ & _ & _ & _ & _ & _ & _ & _ & _ & H & _).
    rewrite H; reflexivity.
  - destruct (TradWeight_needs d_minus1)
      as (_ & _ & _ & _ & _ & _ & _ & _ & _ & H & _).
    rewrite H; reflexivity.
  - destruct (TradWeight_needs d_minus1) as (_ & (H & _) & _).
    apply H. reflexivity.
Defined.

End SchemeFacts.

(** ** More on the synonym combinator *)

Module SynonymMore.

Import Synonym SynonymOps.

Local Open Scope N_scope.

Section WithSubPostList.

Context {P R : Type} {ops : PostList.Ops P R}.

Lemma step_frame (c : call) (s : SynonymPostList P) :
  pl (step c s) = child_step c (pl s)
  /\ wt (step c s) = wt s
  /\ want_wdf (step c s) = want_wdf s
  /\ want_wdfdocmax (step c s) = want_wdfdocmax s
  /\ needs_doclen (step c s) = needs_doclen s
  /\ pltree (step c s) = pltree s.
Proof.
  destruct c as [w|did w]; unfold step, child_step.
  - destruct (SynonymFacts.WrapperPostList_next_forwards d0 s)
      as (_ & H1 & H2 & H3 & H4 & H5 & H6).
    unfold next. repeat split; assumption.
  - destruct (SynonymFacts.WrapperPostList_skip_to_forwards did d0 s)
      as (_ & H1 & H2 & H3 & H4 & H5 & H6).
    unfold skip_to. repeat split; assumption.
Qed.

Lemma run_frame (cs : list call) (s : SynonymPostList P) :
  pl (run cs s) = fold_left (fun p c => child_step c p) cs (pl s)
  /\ wt (run cs s) = wt s
  /\ want_wdf (run cs s) = want_wdf s
  /\ want_wdfdocmax (run cs s) = want_wdfdocmax s
  /\ needs_doclen (run cs s) = needs_doclen s
  /\ pltree (run cs s) = pltree s.
Proof.
  revert s. induction cs as [|c cs IH]; intros s; [repeat split|].
  cbn [run fold_left]. fold (run cs (step c s)).
  destruct (IH (step c s)) as (H1 & H2 & H3 & H4 & H5 & H6).
  destruct (step_frame c s) as (G1 & G2 & G3 & G4 & G5 & G6).
  rewrite H1, H2, H3, H4, H5, H6, G1, G2, G3, G4, G5, G6.
  repeat split.
Qed.

Lemma passed_wdfdocmax_cases (s : SynonymPostList P)
  (doclen unique_terms wdfdocmax : termcount) :
  passed_wdfdocmax s doclen unique_terms wdfdocmax
  = if want_wdfdocmax s
    then passed_doclen s doclen unique_terms wdfdocmax
    else wdfdocmax.
Proof.
  unfold passed_wdfdocmax, passed_doclen, get_weight_args.
  destruct (want_wdfdocmax s); reflexivity.
Qed.

Lemma get_weight_passed (s : SynonymPostList P)
  (doclen unique_terms wdfdocmax : termcount) :
  get_weight s doclen unique_terms wdfdocmax
  = option_map
      (fun w => Weight.get_sumpart w
                  (passed_wdf s doclen unique_terms wdfdocmax)
                  (passed_doclen s doclen unique_terms wdfdocmax)
                  unique_terms
                  (passed_wdfdocmax s doclen unique_terms wdfdocmax))
      (wt s).
Proof.
  destruct (wt s) as [w|] eqn:Hw.
  - rewrite (SynonymFacts.get_weight_calls_get_sumpart s w _ _ _ Hw),
      passed_wdfdocmax_cases. reflexivity.
  - unfold get_weight. now rewrite Hw.
Qed.

End WithSubPostList.

(** X8.  Whatever sequence of [next] and [skip_to] calls is made on a
    combinator, with whatever thresholds, it keeps owning the same weight
    with the same derived flags and the same [needs_doclen]; its
    [recalc_maxweight] is unchanged; the sub-postlist has been driven by
    the same calls with threshold 0; and if the weight declares [WDF] and
    the combinator's [needs_doclen] is set, the wdf passed to [get_sumpart]
    afterwards is still at most the document length. *)
Theorem run_keeps_clamp {P R : Type} {ops : PostList.Ops P R}
  (cs : list call) (s : SynonymPostList P) (w : Weight.t) :
  owns s w ->
  owns (run cs s) w
  /\ needs_doclen (run cs s) = needs_doclen s
  /\ recalc_maxweight (run cs s) = recalc_maxweight s
  /\ pl (run cs s) = fold_left (fun p c => child_step c p) cs (pl s)
  /\ (Weight.needs (Weight.stats_needed w) Weight.WDF = true ->
      needs_doclen s = true ->
      forall doclen unique_terms wdfdocmax : termcount,
        passed_wdf (run cs s) doclen unique_terms wdfdocmax <= doclen).
Proof.
  intros (Hwt & Hwdf & Hmax).
  destruct (run_frame cs s) as (H1 & H2 & H3 & H4 & H5 & H6).
  split; [|split; [|split; [|split]]].
  - unfold owns. rewrite H2, H3, H4. repeat split; assumption.
  - exact H5.
  - unfold recalc_maxweight. now rewrite H2.
  - exact H1.
  - intros Hw Hd doclen unique_terms wdfdocmax.
    rewrite SynonymFacts.passed_wdf_cases, H3, H5, Hwdf, Hd.
    unfold Weight.get_sumpart_needs_wdf_.
    rewrite Hw. lia.
Qed.

Lemma run_keeps_clamp_witness :
  let w := Weight.mk 10%Z (fun _ _ _ _ => d0) d1 (fun _ _ _ => d0) d0 in
  let s := set_weight w
             (mk (OrTree.Or (OrTree.Term 1 7 d1) (OrTree.Term 1 6 d1))
                 None false false true
                 {| get_doclength := fun _ => 9 |}) in
  let s' := run [Next d1; SkipTo 5 d2; Next d0] s in
  owns s' w
  /\ pl s' = OrTree.Or (OrTree.Term 6 7 d1) (OrTree.Term 6 6 d1)
  /\ passed_wdf s' 9 0 0 <= 9.
Proof.
  cbv zeta.
  assert (Ho : owns
            (set_weight
               (Weight.mk 10%Z (fun _ _ _ _ => d0) d1 (fun _ _ _ => d0) d0)
               (mk (OrTree.Or (OrTree.Term 1 7 d1) (OrTree.Term 1 6 d1))
                   None false false true
                   {| get_doclength := fun _ => 9 |}))
            (Weight.mk 10%Z (fun _ _ _ _ => d0) d1 (fun _ _ _ => d0) d0))
    by apply SynonymFacts.set_weight_owns.
  destruct (run_keeps_clamp [Next d1; SkipTo 5 d2; Next d0] _ _ Ho)
    as (H1 & _ & _ & H3 & H4).
  split; [exact H1|]. split; [rewrite H3; reflexivity|].
  apply H4; reflexivity.
Defined.

(** X9.  When the combinator's weight declares neither [WDF] nor
    [WDF_DOC_MAX], [get_weight] hands its own arguments to [get_sumpart]
    with wdf = 0: the result does not depend on the sub-postlist or on the
    [PostListTree]. *)
Theorem get_weight_passes_through {P R : Type} {ops : PostList.Ops P R}
  (s : SynonymPostList P) (p' : P) (tree' : PostListTree)
  (doclen unique_terms wdfdocmax : termcount) :
  want_wdf s = false -> want_wdfdocmax s = false ->
  get_weight s doclen unique_terms wdfdocmax
  = option_map
      (fun w => Weight.get_sumpart w 0 doclen unique_terms wdfdocmax) (wt s)
  /\ get_weight (rebase p' tree' s) doclen unique_terms wdfdocmax
     = get_weight s doclen unique_terms wdfdocmax.
Proof.
  intros Hw Hm. unfold get_weight, get_weight_args, rebase. cbn.
  rewrite Hw, Hm. split; destruct (wt s); reflexivity.
Qed.

Lemma get_weight_passes_through_witness :
  let w := Weight.mk 0%Z (fun wdf dl ut wm =>
                            if (wdf =? 0) then d1 else d0)
             d1 (fun _ _ _ => d0) d0 in
  let s := set_weight w
             (mk (OrTree.Term 1 7 d1) None true true false
                 {| get_doclength := fun _ => 9 |}) in
  get_weight s 4 2 3 = Some d1
  /\ get_weight (rebase (OrTree.Term 2 50 d1)
                   {| get_doclength := fun _ => 1 |} s) 4 2 3
     = get_weight s 4 2 3.
Proof.
  cbv zeta.
  match goal with
  | |- get_weight ?s _ _ _ = _ /\ _ =>
      destruct (get_weight_passes_through s (OrTree.Term 2 50 d1)
                  {| get_doclength := fun _ => 1 |} 4 2 3
                  eq_refl eq_refl) as (H1 & H2)
  end.
  split; [rewrite H1; reflexivity | exact H2].
Defined.

(** X10.  [get_weight] looks the document length up in the [PostListTree]
    only when the weight declares [WDF_DOC_MAX] and the length it was given
    is 0: otherwise the length is passed on as given and the tree has no
    influence on the result. *)
Theorem get_weight_tree_only_when_needed {P R : Type}
  {ops : PostList.Ops P R} (s : SynonymPostList P) (tree' : PostListTree)
  (doclen unique_terms wdfdocmax : termcount) :
  want_wdfdocmax s = false \/ doclen <> 0 ->
  passed_doclen s doclen unique_terms wdfdocmax = doclen
  /\ get_weight (rebase (pl s) tree' s) doclen unique_terms wdfdocmax
     = get_weight s doclen unique_terms wdfdocmax.
Proof.
  intros H.
  assert (E : (if want_wdfdocmax s then (doclen =? 0) else false) = false).
  { destruct H as [-> | H]; [reflexivity|].
    destruct (want_wdfdocmax s); [|reflexivity].
    now apply N.eqb_neq. }
  unfold passed_doclen, get_weight, get_weight_args, rebase. cbn.
  destruct (want_wdfdocmax s); [rewrite E|]; split;
    try reflexivity; destruct (wt s); reflexivity.
Qed.

Lemma get_weight_tree_only_when_needed_witness :
  let w := Weight.mk 522%Z (fun wdf dl ut wm => d1) d1 (fun _ _ _ => d0) d0 in
  let s := set_weight w
             (mk (OrTree.Term 1 7 d1) None false false true
                 {| get_doclength := fun _ => 9 |}) in
  passed_doclen s 4 2 3 = 4
  /\ get_weight (rebase (pl s) {| get_doclength := fun _ => 1 |} s) 4 2 3
     = get_weight s 4 2 3.
Proof.
  cbv zeta. apply get_weight_tree_only_when_needed.
  right. discriminate.
Defined.

(** X11.  When the weight declares [WDF_DOC_MAX], the value passed for it
    is the document length passed (the one given, or the one looked up in
    the tree when 0 was given); if the wdf is being clamped as well, the
    wdf passed never exceeds it. *)
Theorem wdfdocmax_stand_in {P R : Type} {ops : PostList.Ops P R}
  (s : SynonymPostList P) (doclen unique_terms wdfdocmax : termcount) :
  want_wdfdocmax s = true ->
  passed_wdfdocmax s doclen unique_terms wdfdocmax
  = passed_doclen s doclen unique_terms wdfdocmax
  /\ passed_doclen s doclen unique_terms wdfdocmax
     = (if doclen =? 0
        then get_doclength (pltree s) (PostList.get_docid (pl s))
        else doclen)
  /\ (needs_doclen s = true ->
      passed_wdf s doclen unique_terms wdfdocmax
      <= passed_wdfdocmax s doclen unique_terms wdfdocmax).
Proof.
  intros Hm.
  rewrite passed_wdfdocmax_cases, SynonymFacts.passed_doclen_cases,
    SynonymFacts.passed_wdf_cases, Hm.
  split; [reflexivity|]. split; [reflexivity|].
  intros ->. destruct (want_wdf s); destruct (N.eqb_spec doclen 0); lia.
Qed.

Lemma wdfdocmax_stand_in_witness :
  let w := Weight.mk 522%Z (fun wdf dl ut wm => d1) d1 (fun _ _ _ => d0) d0 in
  let s := set_weight w
             (mk (OrTree.Term 1 7 d1) None false false true
                 {| get_doclength := fun _ => 9 |}) in
  passed_wdfdocmax s 0 2 3 = 9 /\ passed_wdf s 0 2 3 <= 9.
Proof.
  cbv zeta.
  destruct (wdfdocmax_stand_in
              (set_weight
                 (Weight.mk 522%Z (fun wdf dl ut wm => d1) d1
                    (fun _ _ _ => d0) d0)
                 (mk (OrTree.Term 1 7 d1) None false false true
                     {| get_doclength := fun _ => 9 |}))
              0 2 3 eq_refl) as (H1 & H2 & H3).
  split.
  - rewrite H1, H2. reflexivity.
  - eapply N.le_trans; [exact (H3 eq_refl)|].
    rewrite H1, H2. apply N.le_refl.
Defined.

(** X12.  [set_weight] replaces the weight wholesale: after two calls only
    the second weight counts, [recalc_maxweight] returns the new weight's
    bound and [get_weight] calls the new weight's [get_sumpart].  It does
    not touch [needs_doclen]: whether the wdf is clamped afterwards is
    decided by the new weight's [WDF] declaration together with the
    [needs_doclen] the combinator already had. *)
Theorem set_weight_replaces {P R : Type} {ops : PostList.Ops P R}
  (s : SynonymPostList P) (w1 w2 : Weight.t)
  (doclen unique_terms wdfdocmax : termcount) :
  set_weight w2 (set_weight w1 s) = set_weight w2 s
  /\ recalc_maxweight (set_weight w2 s) = Some (Weight.get_maxpart w2)
  /\ get_weight (set_weight w2 s) doclen unique_terms wdfdocmax
     = Some (Weight.get_sumpart w2
               (passed_wdf (set_weight w2 s) doclen unique_terms wdfdocmax)
               (passed_doclen (set_weight w2 s)
                  doclen unique_terms wdfdocmax)
               unique_terms
               (passed_wdfdocmax (set_weight w2 s)
                  doclen unique_terms wdfdocmax))
  /\ passed_wdf (set_weight w2 s) doclen unique_terms wdfdocmax
     = (if Weight.needs (Weight.stats_needed w2) Weight.WDF
        then if needs_doclen s
             then N.min (PostList.get_wdf (pl s)) doclen
             else PostList.get_wdf (pl s)
        else 0).
Proof.
  split; [reflexivity|]. split; [reflexivity|]. split.
  - rewrite get_weight_passed. reflexivity.
  - rewrite SynonymFacts.passed_wdf_cases. reflexivity.
Qed.

End SynonymMore.

(** ** Descriptions *)

Module DescriptionFacts.

Import Synonym SynonymOps.

Lemma append_last_inj (a b : string) (c : ascii) :
  (a ++ String c EmptyString)%string = (b ++ String c EmptyString)%string ->
  a = b.
Proof.
  revert b. induction a as [|x a IH]; intros [|y b] H; cbn in H.
  - reflexivity.
  - exfalso. injection H as _ H. destruct b; discriminate H.
  - exfalso. injection H as _ H. destruct a; discriminate H.
  - injection H as -> H. f_equal. now apply IH.
Qed.

Lemma append_length (a b : string) :
  String.length (a ++ b)%string = (String.length a + String.length b)%nat.
Proof. induction a as [|x a IH]; cbn; [reflexivity | now rewrite IH]. Qed.

(** X13.  [get_description] wraps the sub-postlist's description in
    ["SynonymPostList("] and [")"]: the result is 17 characters longer than
    the sub-postlist's description, and two combinators have the same
    description exactly when their sub-postlists do. *)
Theorem get_description_wraps {P : Type} (pl_get_description : P -> string)
  (s1 s2 : SynonymPostList P) :
  get_description pl_get_description s1
  = ("SynonymPostList(" ++ pl_get_description (pl s1) ++ ")")%string
  /\ String.length (get_description pl_get_description s1)
     = (17 + String.length (pl_get_description (pl s1)))%nat
  /\ (get_description pl_get_description s1
      = get_description pl_get_description s2
      <-> pl_get_description (pl s1) = pl_get_description (pl s2)).
Proof.
  assert (E : forall s : SynonymPostList P,
             get_description pl_get_description s
             = ("SynonymPostList("
                ++ (pl_get_description (pl s) ++ ")"))%string).
  { intros s. unfold get_description. cbn. reflexivity. }
  split; [apply E|]. split.
  - rewrite E, !append_length. cbn. lia.
  - rewrite !E. split.
    + intros H. cbn in H.
      repeat match type of H with
             | String _ _ = String _ _ => injection H as H
             end.
      now apply append_last_inj in H.
    + intros ->. reflexivity.
Qed.

End DescriptionFacts.

(** ** The honey backend headers *)

Module HoneyFacts.

Import HoneyFragment.

(** X14.  [HoneyTermList::get_unique_terms()] never exceeds the document
    length nor the number of termlist entries, and equals the number of
    entries whenever that is at most the document length; a zero-length
    document has no unique terms. *)
Theorem get_unique_terms_bounds (tl : HoneyTermList.t) :
  (HoneyTermList.get_unique_terms tl <= HoneyTermList.get_doclength tl)%N
  /\ (HoneyTermList.get_unique_terms tl <= HoneyTermList.size tl)%N
  /\ ((HoneyTermList.size tl <= HoneyTermList.get_doclength tl)%N ->
      HoneyTermList.get_unique_terms tl = HoneyTermList.size tl)
  /\ (HoneyTermList.get_doclength tl = 0%N ->
      HoneyTermList.get_unique_terms tl = 0%N).
Proof.
  unfold HoneyTermList.get_unique_terms, HoneyTermList.get_doclength,
    HoneyTermList.size.
  repeat split; intros; lia.
Qed.

Lemma get_unique_terms_bounds_witness :
  HoneyTermList.get_unique_terms (HoneyTermList.mk 1%N 10%N 4%N) = 4%N
  /\ HoneyTermList.get_unique_terms (HoneyTermList.mk 1%N 0%N 3%N) = 0%N.
Proof.
  split.
  - apply (proj1 (proj2 (proj2 (get_unique_terms_bounds
                                  (HoneyTermList.mk 1%N 10%N 4%N))))).
    cbn. lia.
  - apply (proj2 (proj2 (proj2 (get_unique_terms_bounds
                                  (HoneyTermList.mk 1%N 0%N 3%N))))).
    reflexivity.
Defined.

Lemma N_of_ascii_inj (a b : ascii) : N_of_ascii a = N_of_ascii b -> a = b.
Proof.
  intros H. rewrite <- (ascii_N_embedding a), <- (ascii_N_embedding b).
  now rewrite H.
Qed.

Lemma memcmp_refl (l : list ascii) (n : nat) : memcmp l l n = Eq.
Proof.
  revert l. induction n as [|n IH]; intros [|c l]; cbn; try reflexivity.
  rewrite N.compare_refl. apply IH.
Qed.

Lemma memcmp_antisym (a b : list ascii) (n : nat) :
  memcmp b a n = CompOpp (memcmp a b n).
Proof.
  revert a b. induction n as [|n IH]; intros [|x a] [|y b]; cbn;
    try reflexivity.
  rewrite (N.compare_antisym (N_of_ascii x) (N_of_ascii y)).
  destruct (N_of_ascii x ?= N_of_ascii y)%N; cbn; try reflexivity.
  apply IH.
Qed.

Lemma memcmp_trans (a b c : list ascii) (n : nat) :
  memcmp a b n = Lt -> memcmp b c n = Lt -> memcmp a c n = Lt.
Proof.
  revert a b c. induction n as [|n IH]; intros [|x a] [|y b] [|z c]; cbn;
    try discriminate.
  destruct (N.compare_spec (N_of_ascii x) (N_of_ascii y)) as [E1|L1|G1];
    destruct (N.compare_spec (N_of_ascii y) (N_of_ascii z)) as [E2|L2|G2];
    try discriminate; intros H1 H2.
  - rewrite E1, E2, N.compare_refl. now apply (IH a b c).
  - rewrite E1. now apply N.compare_lt_iff in L2 as ->.
  - rewrite <- E2. now apply N.compare_lt_iff in L1 as ->.
  - assert (L : (N_of_ascii x < N_of_ascii z)%N) by lia.
    now apply N.compare_lt_iff in L as ->.
Qed.

Lemma memcmp_eq (a b : fragment) :
  memcmp (data a) (data b) 4 = Eq -> a = b.
Proof.
  destruct a as [a0 a1 a2 a3], b as [b0 b1 b2 b3]. cbn.
  destruct (N.compare_spec (N_of_ascii a0) (N_of_ascii b0)) as [E0| |];
    try discriminate.
  destruct (N.compare_spec (N_of_ascii a1) (N_of_ascii b1)) as [E1| |];
    try discriminate.
  destruct (N.compare_spec (N_of_ascii a2) (N_of_ascii b2)) as [E2| |];
    try discriminate.
  destruct (N.compare_spec (N_of_ascii a3) (N_of_ascii b3)) as [E3| |];
    try discriminate.
  intros _.
  apply N_of_ascii_inj in E0, E1, E2, E3. now subst.
Qed.

(** X15.  [fragment::operator<] is a strict total order on fragments:
    irreflexive, asymmetric and transitive, and two fragments neither of
    which is less than the other have the same four bytes. *)
Theorem fragment_lt_strict_total_order :
  (forall a : fragment, lt a a = false)
  /\ (forall a b : fragment, lt a b = true -> lt b a = false)
  /\ (forall a b c : fragment,
         lt a b = true -> lt b c = true -> lt a c = true)
  /\ (forall a b : fragment, lt a b = false -> lt b a = false -> a = b).
Proof.
  unfold lt. split; [|split; [|split]].
  - intros a. now rewrite memcmp_refl.
  - intros a b. rewrite (memcmp_antisym (data a) (data b)).
    destruct (memcmp (data a) (data b) 4); cbn; congruence.
  - intros a b c H1 H2.
    rewrite (memcmp_trans (data a) (data b) (data c) 4); [reflexivity| |].
    + destruct (memcmp (data a) (data b) 4); congruence.
    + destruct (memcmp (data b) (data c) 4); congruence.
  - intros a b. rewrite (memcmp_antisym (data a) (data b)).
    destruct (memcmp (data a) (data b) 4) eqn:E; cbn; try congruence.
    intros _ _. now apply memcmp_eq.
Qed.

Lemma fragment_lt_strict_total_order_witness :
  lt (mk "a" "b" "c" "000") (mk "a" "b" "d" "000") = true
  /\ lt (mk "a" "b" "d" "000") (mk "a" "b" "c" "000") = false
  /\ lt (mk "a" "b" "c" "000") (mk "b" "a" "a" "000") = true.
Proof.
  destruct fragment_lt_strict_total_order as (_ & Has & Htr & _).
  split; [reflexivity|]. split.
  - apply Has. reflexivity.
  - apply (Htr _ (mk "a" "b" "d" "000")); reflexivity.
Defined.

(** X16.  The string a fragment converts to has 4 characters when its
    first byte is ['M'] and 3 otherwise, and two fragments convert to the
    same string exactly when their first three bytes agree and, if the
    first byte is ['M'], the fourth agrees too: the fourth byte of a
    fragment not starting with ['M'] is ignored by the conversion though
    not by [operator<]. *)
Theorem fragment_to_string_spec (a b : fragment) :
  List.length (to_string a)
  = (if Ascii.eqb (data0 a) "M" then 4 else 3)%nat
  /\ (to_string a = to_string b
      <-> data0 a = data0 b /\ data1 a = data1 b /\ data2 a = data2 b
          /\ (data0 a = "M"%char -> data3 a = data3 b)).
Proof.
  destruct a as [a0 a1 a2 a3], b as [b0 b1 b2 b3].
  unfold to_string, data. cbn [data0 data1 data2 data3].
  destruct (Ascii.eqb_spec a0 "M") as [Ea|Ea];
    destruct (Ascii.eqb_spec b0 "M") as [Eb|Eb]; cbn;
    (split; [reflexivity|]); split.
  - intros H. injection H as -> -> -> ->. auto.
  - intros (-> & -> & -> & H). now rewrite (H Ea).
  - intros H. discriminate H.
  - intros (H & _). congruence.
  - intros H. discriminate H.
  - intros (H & _). congruence.
  - intros H. injection H as -> -> ->. repeat split. intros; congruence.
  - intros (-> & -> & -> & _). reflexivity.
Qed.

Lemma fragment_to_string_spec_witness :
  to_string (mk "a" "b" "c" "x") = to_string (mk "a" "b" "c" "y")
  /\ lt (mk "a" "b" "c" "x") (mk "a" "b" "c" "y") = true.
Proof.
  split; [|reflexivity].
  apply (proj2 (fragment_to_string_spec _ _)).
  cbn. repeat split. intros H; discriminate H.
Defined.

End HoneyFacts.

(** ** Query parser field and range records *)

Module QueryParserFacts.

Import QueryParserInternal.

Lemma append_all_frame {FP : Type} (ps : list string) (fi : FieldInfo FP) :
  let fi' := fold_left (fun fi p => append FP p fi) ps fi in
  prefixes FP fi' = (prefixes FP fi ++ ps)%list
  /\ type FP fi' = type FP fi
  /\ grouping FP fi' = grouping FP fi
  /\ proc FP fi' = proc FP fi.
Proof.
  cbv zeta. revert fi. induction ps as [|p ps IH]; intros fi; cbn.
  - rewrite app_nil_r. repeat split.
  - destruct (IH (append FP p fi)) as (H1 & H2 & H3 & H4).
    rewrite H1, H2, H3, H4. cbn. rewrite <- app_assoc. repeat split.
Qed.

(** X17.  A [RangeProc] remembers whether it was given a grouping: the
    [grouping_] argument can be read back from the constructed record,
    [default_grouping] is set exactly when the argument was null (and the
    stored grouping is then empty), and an explicit empty grouping gives a
    record different from the one built without a grouping. *)
Theorem RangeProc_keeps_grouping {RP : Type} (range_proc_ : option RP)
  (grouping_ : option string) :
  let r := RangeProc_ctor RP range_proc_ grouping_ in
  grouping_argument RP r = grouping_
  /\ range_proc RP r = range_proc_
  /\ (default_grouping RP r = true <-> grouping_ = None)
  /\ (default_grouping RP r = true -> range_grouping RP r = EmptyString)
  /\ RangeProc_ctor RP range_proc_ (Some EmptyString)
     <> RangeProc_ctor RP range_proc_ None.
Proof.
  cbv zeta. destruct grouping_ as [g|]; cbn;
    repeat split; try discriminate; try reflexivity;
    intros H; discriminate H.
Qed.

Lemma RangeProc_keeps_grouping_witness :
  range_grouping nat (RangeProc_ctor nat (Some 3%nat) None) = EmptyString.
Proof.
  destruct (RangeProc_keeps_grouping (Some 3%nat) None)
    as (_ & _ & H1 & H2 & _).
  apply H2. apply H1. reflexivity.
Defined.

(** X18.  Chained [FieldInfo::append] calls add the prefixes at the end,
    in call order, after those already present, starting from none for a
    freshly constructed [FieldInfo]; the type, grouping and processor are
    left as constructed. *)
Theorem FieldInfo_append_chain {FP : Type} (ps : list string)
  (type_ : filter_type) (proc_ : option FP) (grouping_ : string)
  (fi : FieldInfo FP) :
  prefixes FP (fold_left (fun fi p => append FP p fi) ps fi)
  = (prefixes FP fi ++ ps)%list
  /\ (let fi' := fold_left (fun fi p => append FP p fi) ps
                   (FieldInfo_proc FP type_ proc_ grouping_) in
      prefixes FP fi' = ps /\ type FP fi' = type_
      /\ grouping FP fi' = grouping_ /\ proc FP fi' = proc_)
  /\ (let fi' := fold_left (fun fi p => append FP p fi) ps
                   (FieldInfo_grouping FP type_ grouping_) in
      prefixes FP fi' = ps /\ type FP fi' = type_
      /\ grouping FP fi' = grouping_ /\ proc FP fi' = None)
  /\ (let fi' := fold_left (fun fi p => append FP p fi) ps
                   (FieldInfo_type FP type_) in
      prefixes FP fi' = ps /\ type FP fi' = type_
      /\ grouping FP fi' = EmptyString /\ proc FP fi' = None).
Proof.
  split; [apply (append_all_frame ps fi)|].
  split; [|split]; cbv zeta.
  - destruct (append_all_frame ps (FieldInfo_proc FP type_ proc_ grouping_))
      as (H1 & H2 & H3 & H4).
    rewrite H1, H2, H3, H4. repeat split.
  - destruct (append_all_frame ps (FieldInfo_grouping FP type_ grouping_))
      as (H1 & H2 & H3 & H4).
    rewrite H1, H2, H3, H4. repeat split.
  - destruct (append_all_frame ps (FieldInfo_type FP type_))
      as (H1 & H2 & H3 & H4).
    rewrite H1, H2, H3, H4. repeat split.
Qed.

End QueryParserFacts.

(** ** Snapshot expiry *)

Module SnapshotExpiryFacts.

Import SnapshotExpiry.

Section WithFiles.

Variable File : Type.
Variable M : File -> Q.

Lemma filter_split_length (p : File -> bool) (l : list File) :
  List.length l
  = (List.length (filter p l)
     + List.length (filter (fun f => negb (p f)) l))%nat.
Proof.
  induction l as [|x l IH]; [reflexivity|].
  cbn. destruct (p x); cbn; lia.
Qed.

Lemma count_positive_iff (o : list File) :
  (0 <? Z.of_nat (List.length o)
        - Z.of_nat (List.length (filter (too_old File M) o))) = true
  <-> exists f, In f o /\ too_old File M f = false.
Proof.
  rewrite Z.ltb_lt, (filter_split_length (too_old File M) o).
  split.
  - intros H.
    destruct (filter (fun f => negb (too_old File M f)) o) as [|f l] eqn:E.
    + cbn in H. lia.
    + assert (Hin : In f (filter (fun f => negb (too_old File M f)) o))
        by (rewrite E; now left).
      apply filter_In in Hin. destruct Hin as (Hin & Hf).
      exists f. split; [exact Hin|]. now apply negb_true_iff in Hf.
  - intros (f & Hin & Hf).
    assert (Hin' : In f (filter (fun f => negb (too_old File M f)) o)).
    { apply filter_In. split; [exact Hin|]. now rewrite Hf. }
    destruct (filter (fun f => negb (too_old File M f)) o);
      [destruct Hin'|]. cbn. lia.
Qed.

End WithFiles.

(** X19.  Expiring old snapshots never empties a non-empty directory: only
    files more than seven days old are unlinked, and only when at least one
    file is not that old, in which case every older file goes; when every
    file is more than seven days old nothing is unlinked.  What remains is
    the listing without the unlinked files. *)
Theorem expiry_leaves_at_least_one {File : Type} (M : File -> Q)
  (o : list File) :
  (o <> [] -> remaining File M o <> [])
  /\ (forall f, In f (unlinked File M o) ->
                In f o /\ too_old File M f = true)
  /\ (forall f, In f (remaining File M o)
                <-> In f o /\ ~ In f (unlinked File M o))
  /\ ((exists f, In f o /\ too_old File M f = false) ->
      forall f, In f o -> (In f (unlinked File M o)
                           <-> too_old File M f = true))
  /\ ((forall f, In f o -> too_old File M f = true) ->
      unlinked File M o = [] /\ remaining File M o = o).
Proof.
  unfold remaining, unlinked.
  pose proof (count_positive_iff File M o) as Hc.
  destruct (0 <? Z.of_nat (List.length o)
                 - Z.of_nat (List.length (filter (too_old File M) o)))
    eqn:E.
  - destruct (proj1 Hc eq_refl) as (g & Hg & Hgo).
    split; [|split; [|split; [|split]]].
    + intros _ Hnil.
      assert (Hin : In g (filter (fun f => negb (too_old File M f)) o)).
      { apply filter_In. split; [exact Hg|]. now rewrite Hgo. }
      rewrite Hnil in Hin. destruct Hin.
    + intros f Hf. now apply filter_In in Hf.
    + intros f. rewrite !filter_In. split.
      * intros (Hin & Hf). split; [exact Hin|].
        intros (_ & Hold). rewrite Hold in Hf. discriminate.
      * intros (Hin & Hno). split; [exact Hin|].
        destruct (too_old File M f) eqn:Ef; [|reflexivity].
        exfalso. apply Hno. now split.
    + intros _ f Hin. rewrite filter_In. tauto.
    + intros Hall. rewrite (Hall g Hg) in Hgo. discriminate.
  - split; [|split; [|split; [|split]]].
    + intros H. exact H.
    + intros f [].
    + intros f. cbn. tauto.
    + intros Hex. apply Hc in Hex. discriminate.
    + intros _. split; reflexivity.
Qed.

Lemma expiry_leaves_at_least_one_witness :
  remaining Q (fun age => age) [(9 # 1)%Q; (8 # 1)%Q] <> []
  /\ unlinked Q (fun age => age) [(9 # 1)%Q; (8 # 1)%Q] = []
  /\ In (9 # 1)%Q (unlinked Q (fun age => age) [(9 # 1)%Q; (3 # 1)%Q]).
Proof.
  split; [|split].
  - apply (proj1 (expiry_leaves_at_least_one (fun age => age)
                    [(9 # 1)%Q; (8 # 1)%Q])).
    discriminate.
  - apply (proj2 (proj2 (proj2 (proj2
             (expiry_leaves_at_least_one (fun age => age)
                [(9 # 1)%Q; (8 # 1)%Q]))))).
    intros f [<-|[<-|[]]]; reflexivity.
  - destruct (expiry_leaves_at_least_one (fun age => age)
                [(9 # 1)%Q; (3 # 1)%Q]) as (_ & _ & _ & H & _).
    apply H.
    + exists (3 # 1)%Q. split; [right; now left | reflexivity].
    + now left.
    + reflexivity.
Defined.

End SnapshotExpiryFacts.

(** ** Synonym groups under the built-in schemes *)

Module SchemeSynonymFacts.

Import Synonym SynonymOps.

Local Open Scope N_scope.

Lemma args_from_flags {P R : Type} {ops : PostList.Ops P R}
  (s : SynonymPostList P) (doclen unique_terms wdfdocmax : termcount) :
  want_wdfdocmax s = false ->
  get_weight_args s doclen unique_terms wdfdocmax
  = (if want_wdf s
     then if needs_doclen s
          then N.min (PostList.get_wdf (pl s)) doclen
          else PostList.get_wdf (pl s)
     else 0,
     doclen, unique_terms, wdfdocmax).
Proof.
  intros Hm. unfold get_weight_args, WrapperPostList_get_wdf. rewrite Hm.
  destruct (want_wdf s); [|reflexivity].
  destruct (needs_doclen s); [|reflexivity].
  destruct (N.ltb_spec doclen (PostList.get_wdf (pl s)));
    repeat f_equal; lia.
Qed.

(** X20.  What a synonym group hands to [get_sumpart] under a weight whose
    mask is that of one of the eighteen constructors modelled in [Schemes]
    (none of which declares [WDF_DOC_MAX]): the document length,
    unique-term count and maximum wdf are passed on as received; the wdf
    passed is 0 for [BoolWeight], [CoordWeight] and [DiceCoeffWeight], and
    for every other class the child's wdf, clamped to the document length
    when the combinator's [needs_doclen] is set and raw when it is not.
    The same holds for [BM25Weight(k1, k2, k3, b, min_normlen)] with any
    arguments, which always declares [WDF]. *)
Theorem synonym_args_by_scheme {P R : Type} {ops : PostList.Ops P R}
  (s : SynonymPostList P) (w : Weight.t)
  (doclen unique_terms wdfdocmax : termcount) :
  owns s w ->
  (forall sch : Schemes.scheme,
      Weight.stats_needed w = Schemes.ctor_mask sch ->
      get_weight_args s doclen unique_terms wdfdocmax
      = (match sch with
         | Schemes.BoolWeight | Schemes.CoordWeight
         | Schemes.DiceCoeffWeight => 0
         | _ => if needs_doclen s
                then N.min (PostList.get_wdf (pl s)) doclen
                else PostList.get_wdf (pl s)
         end, doclen, unique_terms, wdfdocmax))
  /\ (forall k1 k2 k3 b mn : double,
         Weight.stats_needed w
         = BM25.stats_needed (BM25.BM25Weight k1 k2 k3 b mn) ->
         get_weight_args s doclen unique_terms wdfdocmax
         = (if needs_doclen s
            then N.min (PostList.get_wdf (pl s)) doclen
            else PostList.get_wdf (pl s),
            doclen, unique_terms, wdfdocmax)).
Proof.
  intros (_ & Hwdf & Hmax).
  unfold Weight.get_sumpart_needs_wdf_ in Hwdf.
  unfold Weight.get_sumpart_needs_wdfdocmax_ in Hmax.
  split.
  - intros sch Hs. rewrite Hs in Hwdf, Hmax.
    rewrite args_from_flags, Hwdf;
      destruct sch; try reflexivity; exact Hmax.
  - intros k1 k2 k3 b mn Hs.
    rewrite Hs, (SchemeFacts.BM25_mask k1 k2 k3 b mn) in Hwdf, Hmax.
    cbv zeta in Hwdf, Hmax.
    unfold bm25_mask in Hwdf, Hmax.
    rewrite args_from_flags, Hwdf.
    + destruct (bm25_uses_length _ _ _); reflexivity.
    + rewrite Hmax. destruct (bm25_uses_length _ _ _); reflexivity.
Qed.

Lemma synonym_args_by_scheme_witness :
  let w := Weight.mk (Schemes.ctor_mask Schemes.DLHWeight)
             (fun _ _ _ _ => d0) d1 (fun _ _ _ => d0) d0 in
  let s := set_weight w
             (mk (OrTree.Or (OrTree.Term 1 7 d1) (OrTree.Term 1 6 d1))
                 None false false true
                 {| get_doclength := fun _ => 9 |}) in
  get_weight_args s 9 4 0 = (9, 9, 4, 0).
Proof.
  cbv zeta.
  match goal with
  | |- get_weight_args ?s _ _ _ = _ =>
      assert (Ho : owns s (Weight.mk (Schemes.ctor_mask Schemes.DLHWeight)
                             (fun _ _ _ _ => d0) d1 (fun _ _ _ => d0) d0))
        by apply SynonymFacts.set_weight_owns
  end.
  rewrite (proj1 (synonym_args_by_scheme _ _ 9 4 0 Ho)
             Schemes.DLHWeight eq_refl).
  reflexivity.
Defined.

End SchemeSynonymFacts.
